(** * xflags: typed value boxes, flag declaration and dispatch

    A shallow embedding of the Go package [xflags] (files [xflags.go] and the
    value-box file holding [genericValue] / [genericSliceValue]) together with
    the parts of the Go standard library those files call ([strconv],
    [time.ParseDuration], [time.Duration.String]).

    - Go strings are byte sequences: they are [string] (lists of [ascii]).
    - Fixed-width integers are [Z] with the wrap-around written out.
    - Caller-owned destination variables live in a heap [gmap loc cell];
      a value box holds a pointer ([loc]) into it, so aliasing between the
      caller, the flag descriptor and the box is the heap's.
    - A Go call either returns (an [error] or [nil], and the heap it left) or
      panics: type [outcome].

    The definitions come first: the library models, the value boxes, the
    constructors of [xflags.go] and [RunWithArgs]; then module [Matcher],
    which follows the specification for the files that are not part of the
    sources (each such definition says so).  The properties follow. *)

From Stdlib Require Import ZArith Ascii String List Bool Lia.
From Stdlib Require Import Floats.SpecFloat.
From stdpp Require Import base option gmap strings list.

Open Scope string_scope.
Open Scope Z_scope.

(** ** Bytes *)

Module GoBytes.

Definition byte (c : ascii) : Z := Z.of_N (N_of_ascii c).

(** [strconv.lower]: [c | ('x' - 'X')]. *)
Definition lower (b : Z) : Z := Z.lor b 32.

Definition isDigit (b : Z) : bool := (48 <=? b) && (b <=? 57).

End GoBytes.
Import GoBytes.

(** ** Go errors *)

(** [strconv.ErrSyntax] and [strconv.ErrRange], plus the two errors
    [ParseUint] reports for a bad [base] / [bitSize] argument. *)
Inductive strconvErr := ErrSyntax | ErrRange | ErrBase (base : Z) | ErrBitSize (bitSize : Z).

(** Error values that flow through the package.  [NumError] is
    [*strconv.NumError] (it carries the rejected literal in [Num]);
    [errorString] is what [errors.New] / [fmt.Errorf] build.
    [ArgumentError] is the package's error for one flag's literal (the tests
    look for it); its declaration is not part of the sources and its fields
    follow the spec: the flag's name, the literal, and the cause. *)
Inductive error :=
| NumError (Func : string) (Num : string) (Err : strconvErr)
| errorString (msg : string)
| ArgumentError (flag : string) (arg : string) (cause : error).

(** ** strconv: integers *)

Module strconv.

(** The platform: 64-bit [int] and [uint]. *)
Definition IntSize : Z := 64.
Definition maxUint64 : Z := 2 ^ 64 - 1.

Definition wrap64 (z : Z) : Z := z mod 2 ^ 64.

(** The digit loop of [ParseUint].  [n] is the [uint64] accumulator; the
    result is the returned value, the error kind if any, and whether an
    underscore was seen. *)
Fixpoint parseUintLoop (base0 : bool) (base cutoff maxVal : Z)
    (s : string) (underscores : bool) (n : Z) : Z * option strconvErr * bool :=
  match s with
  | EmptyString => (n, None, underscores)
  | String c s' =>
    let b := byte c in
    if (b =? 95) && base0 then
      parseUintLoop base0 base cutoff maxVal s' true n
    else
      let d :=
        if isDigit b then Some (b - 48)
        else if (97 <=? lower b) && (lower b <=? 122) then Some (lower b - 97 + 10)
        else None in
      match d with
      | None => (0, Some ErrSyntax, underscores)
      | Some d =>
        if base <=? d then (0, Some ErrSyntax, underscores)
        else if cutoff <=? n then (maxVal, Some ErrRange, underscores)
        else
          let n' := wrap64 (n * base) in
          let n1 := wrap64 (n' + d) in
          if (n1 <? n') || (maxVal <? n1) then (maxVal, Some ErrRange, underscores)
          else parseUintLoop base0 base cutoff maxVal s' underscores n1
      end
  end.

(** [strconv.underscoreOK]: underscores only between digits (or after a base
    prefix).  [saw] is ['^'], ['0'], ['_'] or ['!'] as in the source. *)
Inductive sawKind := SawStart | SawDigit | SawUnderscore | SawOther.

Fixpoint underscoreScan (hex : bool) (s : string) (saw : sawKind) : bool :=
  match s with
  | EmptyString => match saw with SawUnderscore => false | _ => true end
  | String c s' =>
    let b := byte c in
    if isDigit b || (hex && (97 <=? lower b) && (lower b <=? 102)) then
      underscoreScan hex s' SawDigit
    else if b =? 95 then
      match saw with
      | SawDigit => underscoreScan hex s' SawUnderscore
      | _ => false
      end
    else
      match saw with
      | SawUnderscore => false
      | _ => underscoreScan hex s' SawOther
      end
  end.

Definition underscoreOK (s : string) : bool :=
  let s :=
    match s with
    | String c s' => if (byte c =? 45) || (byte c =? 43) then s' else s
    | EmptyString => s
    end in
  match s with
  | String c0 (String c1 s') =>
    if (byte c0 =? 48)
       && ((lower (byte c1) =? 98) || (lower (byte c1) =? 111) || (lower (byte c1) =? 120))
    then underscoreScan (lower (byte c1) =? 120) s' SawDigit
    else underscoreScan false s SawStart
  | _ => underscoreScan false s SawStart
  end.

(** [strconv.ParseUint(s, base, bitSize)]: the value and the error. *)
Definition ParseUint (s : string) (base bitSize : Z) : Z * option error :=
  let fn := "ParseUint" in
  match s with
  | EmptyString => (0, Some (NumError fn s ErrSyntax))
  | String c0 rest =>
    let picked : option (Z * string) :=
      if (2 <=? base) && (base <=? 36) then Some (base, s)
      else if base =? 0 then
        if byte c0 =? 48 then
          match rest with
          | String c1 (String c2 r2) =>
            if lower (byte c1) =? 98 then Some (2, String c2 r2)
            else if lower (byte c1) =? 111 then Some (8, String c2 r2)
            else if lower (byte c1) =? 120 then Some (16, String c2 r2)
            else Some (8, rest)
          | _ => Some (8, rest)
          end
        else Some (10, s)
      else None in
    match picked with
    | None => (0, Some (NumError fn s (ErrBase base)))
    | Some (base', digits) =>
      if (bitSize <? 0) || (64 <? bitSize) then (0, Some (NumError fn s (ErrBitSize bitSize)))
      else
        let bitSize := if bitSize =? 0 then IntSize else bitSize in
        let cutoff := maxUint64 / base' + 1 in
        let maxVal := 2 ^ bitSize - 1 in
        match parseUintLoop (base =? 0) base' cutoff maxVal digits false 0 with
        | (v, Some e, _) => (v, Some (NumError fn s e))
        | (v, None, underscores) =>
          if underscores && negb (underscoreOK s) then (0, Some (NumError fn s ErrSyntax))
          else (v, None)
        end
    end
  end.

(** [strconv.ParseInt(s, base, bitSize)]. *)
Definition ParseInt (s : string) (base bitSize : Z) : Z * option error :=
  let fn := "ParseInt" in
  match s with
  | EmptyString => (0, Some (NumError fn s ErrSyntax))
  | String c0 rest =>
    let '(neg, body) :=
      if byte c0 =? 43 then (false, rest)
      else if byte c0 =? 45 then (true, rest)
      else (false, s) in
    let '(un, err) := ParseUint body base bitSize in
    match err with
    | Some (NumError _ _ ErrRange) | None =>
      let bitSize := if bitSize =? 0 then IntSize else bitSize in
      let cutoff := 2 ^ (bitSize - 1) in
      if negb neg && (cutoff <=? un) then (cutoff - 1, Some (NumError fn s ErrRange))
      else if neg && (cutoff <? un) then (- cutoff, Some (NumError fn s ErrRange))
      else (if neg then - un else un, None)
    | Some (NumError _ _ e) => (0, Some (NumError fn s e))
    | Some e => (0, Some e)
    end
  end.

(** Decimal rendering ([formatBits] at base 10): at most 20 digits for a
    [uint64], so the fuel below is never exhausted on one. *)
Definition digitChar (d : Z) : ascii := ascii_of_N (Z.to_N (48 + d)).

Fixpoint formatDec (fuel : nat) (u : Z) (acc : string) : string :=
  match fuel with
  | O => acc
  | S fuel' =>
    if u <? 10 then String (digitChar u) acc
    else formatDec fuel' (u / 10) (String (digitChar (u mod 10)) acc)
  end.

Definition FormatUint (v : Z) (base : Z) : string := formatDec 20 v "".

Definition FormatInt (v : Z) (base : Z) : string :=
  if v <? 0 then String "-" (formatDec 20 (- v) "") else formatDec 20 v "".

(** [strconv.ParseBool] / [strconv.FormatBool]. *)
Definition ParseBool (str : string) : bool * option error :=
  if bool_decide (str ∈ ["1"; "t"; "T"; "true"; "TRUE"; "True"]) then (true, None)
  else if bool_decide (str ∈ ["0"; "f"; "F"; "false"; "FALSE"; "False"]) then (false, None)
  else (false, Some (NumError "ParseBool" str ErrSyntax)).

Definition FormatBool (b : bool) : string := if b then "true" else "false".

End strconv.

(** ** IEEE binary64 ([float64]) *)

Module float64.

Definition t := spec_float.
Definition prec : Z := 53.
Definition emax : Z := 1024.

(** [float64(u)] for an unsigned integer: round to nearest, ties to even. *)
Definition ofUint (u : Z) : t := binary_normalize prec emax u 0 false.
Definition mul (x y : t) : t := SFmul prec emax x y.
Definition div (x y : t) : t := SFdiv prec emax x y.

(** [uint64(x)] for a non-negative finite [x]: truncation toward zero. *)
Definition toUint64 (x : t) : Z :=
  match x with
  | S754_finite false m e => strconv.wrap64 (Z.shiftl (Zpos m) e)
  | _ => 0
  end.

End float64.

(** ** time.Duration *)

Module time.

Definition Nanosecond : Z := 1.
Definition Microsecond : Z := 1000 * Nanosecond.
Definition Millisecond : Z := 1000 * Microsecond.
Definition Second : Z := 1000 * Millisecond.
Definition Minute : Z := 60 * Second.
Definition Hour : Z := 60 * Minute.

(** The two spellings of the micro sign: U+00B5 and U+03BC, as UTF-8. *)
Definition micro1 : string := String (ascii_of_nat 194) (String (ascii_of_nat 181) "").
Definition micro2 : string := String (ascii_of_nat 206) (String (ascii_of_nat 188) "").

Definition unitMap (u : string) : option Z :=
  if bool_decide (u = "ns") then Some Nanosecond
  else if bool_decide (u = "us") then Some Microsecond
  else if bool_decide (u = micro1 +:+ "s") then Some Microsecond
  else if bool_decide (u = micro2 +:+ "s") then Some Microsecond
  else if bool_decide (u = "ms") then Some Millisecond
  else if bool_decide (u = "s") then Some Second
  else if bool_decide (u = "m") then Some Minute
  else if bool_decide (u = "h") then Some Hour
  else None.

(** [leadingInt]: the leading [[0-9]*]; [None] is [errLeadingInt]. *)
Fixpoint leadingInt (s : string) (x : Z) : option (Z * string) :=
  match s with
  | EmptyString => Some (x, s)
  | String c s' =>
    let b := byte c in
    if negb (isDigit b) then Some (x, s)
    else if 2 ^ 63 / 10 <? x then None
    else
      let x' := strconv.wrap64 (x * 10 + b - 48) in
      if 2 ^ 63 <? x' then None else leadingInt s' x'
  end.

(** [leadingFraction]: the digits after the point, as [x / scale]. *)
Fixpoint leadingFraction (s : string) (x : Z) (scale : float64.t) (overflow : bool)
    : Z * float64.t * string :=
  match s with
  | EmptyString => (x, scale, s)
  | String c s' =>
    let b := byte c in
    if negb (isDigit b) then (x, scale, s)
    else if overflow then leadingFraction s' x scale overflow
    else if (2 ^ 63 - 1) / 10 <? x then leadingFraction s' x scale true
    else
      let y := strconv.wrap64 (x * 10 + b - 48) in
      if 2 ^ 63 <? y then leadingFraction s' x scale true
      else leadingFraction s' y (float64.mul scale (float64.ofUint 10)) false
  end.

(** The unit: everything up to the next ['.'] or digit. *)
Fixpoint spanUnit (s : string) : string * string :=
  match s with
  | EmptyString => ("", s)
  | String c s' =>
    let b := byte c in
    if (b =? 46) || isDigit b then ("", s)
    else let '(u, r) := spanUnit s' in (String c u, r)
  end.

(** [time.quote] on a literal made of printable ASCII: the literal between
    two double-quote bytes. *)
Definition quote (s : string) : string :=
  String (ascii_of_nat 34) (s +:+ String (ascii_of_nat 34) "").

Definition invalidDuration (orig : string) : error :=
  errorString ("time: invalid duration " +:+ quote orig).

(** One pass of the [for s != ""] loop of [ParseDuration] per unit of fuel;
    every pass consumes at least the unit's first byte, so [length s] passes
    are enough. *)
Fixpoint parseDurationLoop (fuel : nat) (orig s : string) (d : Z) : Z + error :=
  match s with
  | EmptyString => inl d
  | String c0 _ =>
    match fuel with
    | O => inr (invalidDuration orig)
    | S fuel' =>
      if negb ((byte c0 =? 46) || isDigit (byte c0)) then inr (invalidDuration orig)
      else
        match leadingInt s 0 with
        | None => inr (invalidDuration orig)
        | Some (v, s1) =>
          let pre := negb (String.length s =? String.length s1)%nat in
          let '(f, scale, s2, post) :=
            match s1 with
            | String c s1' =>
              if byte c =? 46 then
                let '(f, scale, r) := leadingFraction s1' 0 (float64.ofUint 1) false in
                (f, scale, r, negb (String.length s1' =? String.length r)%nat)
              else (0, float64.ofUint 1, s1, false)
            | EmptyString => (0, float64.ofUint 1, s1, false)
            end in
          if negb pre && negb post then inr (invalidDuration orig)
          else
            let '(u, s3) := spanUnit s2 in
            if bool_decide (u = "") then
              inr (errorString ("time: missing unit in duration " +:+ quote orig))
            else
              match unitMap u with
              | None =>
                inr (errorString
                       ("time: unknown unit " +:+ quote u +:+ " in duration " +:+ quote orig))
              | Some unit =>
                if 2 ^ 63 / unit <? v then inr (invalidDuration orig)
                else
                  let v := strconv.wrap64 (v * unit) in
                  let v' :=
                    if 0 <? f then
                      strconv.wrap64
                        (v + float64.toUint64
                               (float64.mul (float64.ofUint f)
                                  (float64.div (float64.ofUint unit) scale)))
                    else v in
                  if (0 <? f) && (2 ^ 63 <? v') then inr (invalidDuration orig)
                  else
                    let d' := strconv.wrap64 (d + v') in
                    if 2 ^ 63 <? d' then inr (invalidDuration orig)
                    else parseDurationLoop fuel' orig s3 d'
              end
        end
    end
  end.

(** [time.ParseDuration]: a [Duration] is an [int64] count of nanoseconds. *)
Definition ParseDuration (s : string) : Z + error :=
  let '(neg, body) :=
    match s with
    | String c rest =>
      if (byte c =? 45) || (byte c =? 43) then (byte c =? 45, rest) else (false, s)
    | EmptyString => (false, s)
    end in
  if bool_decide (body = "0") then inl 0
  else if bool_decide (body = "") then inr (invalidDuration s)
  else
    match parseDurationLoop (String.length body) s body 0 with
    | inr e => inr e
    | inl d =>
      if neg then inl (- d)
      else if 2 ^ 63 - 1 <? d then inr (invalidDuration s)
      else inl d
    end.

(** [fmtFrac]: [v / 10^prec] with the fraction's trailing zeros dropped,
    written in front of [buf]. *)
Fixpoint fmtFrac (prec : nat) (v : Z) (print : bool) (buf : string) : string * Z :=
  match prec with
  | O => (if print then String "." buf else buf, v)
  | S prec' =>
    let digit := v mod 10 in
    let print := print || negb (digit =? 0) in
    fmtFrac prec' (v / 10) print (if print then String (strconv.digitChar digit) buf else buf)
  end.

Definition fmtInt (v : Z) (buf : string) : string := strconv.formatDec 20 v buf.

(** [Duration.String]. *)
Definition String_ (d : Z) : string :=
  let neg := d <? 0 in
  let u := Z.abs d in
  let body :=
    if u <? Second then
      if u =? 0 then "0s"
      else
        let '(prec, suffix) :=
          if u <? Microsecond then (0%nat, "ns")
          else if u <? Millisecond then (3%nat, micro1 +:+ "s")
          else (6%nat, "ms") in
        let '(buf, u') := fmtFrac prec u false suffix in
        fmtInt u' buf
    else
      let '(buf, u1) := fmtFrac 9 u false "s" in
      let buf := fmtInt (u1 mod 60) buf in
      let u2 := u1 / 60 in
      if 0 <? u2 then
        let buf := fmtInt (u2 mod 60) (String "m" buf) in
        let u3 := u2 / 60 in
        if 0 <? u3 then fmtInt u3 (String "h" buf) else buf
      else buf in
  if neg then String "-" body else body.

End time.

(** ** strconv: floating point

    [strconv.ParseFloat] and [strconv.FormatFloat] are taken as an interface:
    everything below holds for any implementation of it.  [decimalFloat]
    (further down) is one implementation, used to run examples. *)

Class FloatConv := {
  ParseFloat : string -> Z -> float64.t * option error;
  FormatFloat : float64.t -> ascii -> Z -> Z -> string
}.

(** ** Values, types and the heap *)

(** The type set [cliGenericTypes]. *)
Inductive GoType :=
| TString | TFloat64 | TUint64 | TUint | TInt64 | TInt | TBool | TDuration.

#[global] Instance GoType_eq_dec : EqDecision GoType.
Proof. solve_decision. Defined.

(** A value of one of those types, tagged with its (dynamic) type. *)
Inductive scalar :=
| VString (s : string)
| VFloat64 (f : float64.t)
| VUint64 (n : Z)
| VUint (n : Z)
| VInt64 (n : Z)
| VInt (n : Z)
| VBool (b : bool)
| VDuration (d : Z).

Definition typeOf (v : scalar) : GoType :=
  match v with
  | VString _ => TString
  | VFloat64 _ => TFloat64
  | VUint64 _ => TUint64
  | VUint _ => TUint
  | VInt64 _ => TInt64
  | VInt _ => TInt
  | VBool _ => TBool
  | VDuration _ => TDuration
  end.

(** Addresses.  A [cell] is what one address holds: a scalar variable, or a
    slice variable ([[]T]; a nil slice is the empty list). *)
Abbreviation loc := positive.

Inductive cell :=
| CVar (v : scalar)
| CSlice (T : GoType) (xs : list scalar).

Abbreviation heap := (gmap loc cell).

(** An interface value [any(x)]: the dynamic type is the constructor's.  A
    pointer [*T] boxed in an interface has dynamic type [*T], not [T]. *)
Inductive any :=
| AnyScalar (v : scalar)
| AnyPtr (T : GoType) (p : loc).

(** What a call does: it returns [a] leaving state [s], or it panics. *)
Inductive result (S A : Type) :=
| Ret (a : A) (s : S)
| Panic (msg : string).
Arguments Ret {S A} a s.
Arguments Panic {S A} msg.

(** A call that returns an [error]. *)
Abbreviation outcome := (result heap (option error)).

Definition nilDeref : string := "invalid memory address or nil pointer dereference".
Definition badAssert : string := "interface conversion: wrong dynamic type".

(** [*p = c]: [p] must point to a variable. *)
Definition assign (p : loc) (c : cell) (h : heap) : option heap :=
  match h !! p with
  | Some _ => Some (<[p := c]> h)
  | None => None
  end.

(** Integer conversions [uint(v)] and [int(v)] on this platform. *)
Definition uint (v : Z) : Z := v mod 2 ^ strconv.IntSize.
Definition int (v : Z) : Z :=
  (v + 2 ^ (strconv.IntSize - 1)) mod 2 ^ strconv.IntSize - 2 ^ (strconv.IntSize - 1).

(** ** genericValue[T] *)

Module genericValue.

(** A [*genericValue[T]].  The struct is never written after construction,
    so the box is its value: the type parameter, the pointer [p] and
    [isBool]. *)
Record t := mk { T : GoType; p : loc; isBool : bool }.

(** [newGeneric(val, p, isbool)]: [*p = val], then the box. *)
Definition newGeneric (val : scalar) (p : loc) (isbool : bool) (h : heap) : result heap t :=
  match assign p (CVar val) h with
  | Some h' => Ret (mk (typeOf val) p isbool) h'
  | None => Panic nilDeref
  end.

Definition IsBoolFlag (b : t) : bool := isBool b.

(** [Get]: [*p.p]. *)
Definition Get (b : t) (h : heap) : option scalar :=
  match h !! p b with
  | Some (CVar v) => Some v
  | _ => None
  end.

Section WithFloatConv.
Context `{FloatConv}.

(** [String]: the switch is on [any(p.p)], and [p.p] is the pointer. *)
Definition String_ (b : t) (h : heap) : string :=
  match AnyPtr (T b) (p b) with
  | AnyScalar (VString v) => v
  | AnyScalar (VFloat64 v) => FormatFloat v "f" (-1) 64
  | AnyScalar (VUint64 v) => strconv.FormatUint v 10
  | AnyScalar (VUint v) => strconv.FormatUint v 10
  | AnyScalar (VInt64 v) => strconv.FormatInt v 10
  | AnyScalar (VInt v) => strconv.FormatInt v 10
  | AnyScalar (VBool v) => strconv.FormatBool v
  | AnyScalar (VDuration v) => time.String_ v
  | AnyPtr _ _ => ""
  end.

(** [*p.p = any(v).(T)]: the assertion panics unless [v]'s dynamic type is
    [T]. *)
Definition assignAsT (b : t) (v : scalar) (h : heap) : outcome :=
  if decide (typeOf v = T b) then
    match assign (p b) (CVar v) h with
    | Some h' => Ret None h'
    | None => Panic nilDeref
    end
  else Panic badAssert.

(** [Set] (a reserved word here, hence [Set_]): the switch is on
    [any( *p.p )], the variable's current value.  The [default] branch of the
    source is not reachable: [scalar] has exactly the types of
    [cliGenericTypes]. *)
Definition Set_ (b : t) (s : string) (h : heap) : outcome :=
  match h !! p b with
  | Some (CVar cur) =>
    match cur with
    | VString _ => assignAsT b (VString s) h
    | VFloat64 _ =>
      match ParseFloat s 64 with
      | (_, Some err) => Ret (Some err) h
      | (v, None) => assignAsT b (VFloat64 v) h
      end
    | VUint64 _ =>
      match strconv.ParseUint s 10 64 with
      | (_, Some err) => Ret (Some err) h
      | (v, None) => assignAsT b (VUint (uint v)) h
      end
    | VUint _ =>
      match strconv.ParseUint s 10 32 with
      | (_, Some err) => Ret (Some err) h
      | (o, None) => assignAsT b (VUint (uint o)) h
      end
    | VInt64 _ =>
      match strconv.ParseInt s 10 64 with
      | (_, Some err) => Ret (Some err) h
      | (v, None) => assignAsT b (VInt64 v) h
      end
    | VInt _ =>
      match strconv.ParseInt s 10 32 with
      | (_, Some err) => Ret (Some err) h
      | (o, None) => assignAsT b (VInt (int o)) h
      end
    | VBool _ =>
      match strconv.ParseBool s with
      | (_, Some err) => Ret (Some err) h
      | (v, None) => assignAsT b (VBool v) h
      end
    | VDuration _ =>
      match time.ParseDuration s with
      | inr err => Ret (Some err) h
      | inl v => assignAsT b (VDuration v) h
      end
    end
  | _ => Panic nilDeref
  end.

End WithFloatConv.
End genericValue.

(** ** genericSliceValue[T] *)

Module genericSliceValue.

(** A [*genericSliceValue[T]].  The struct's field [p] is never written after
    construction, so the box carries it (with [T]); the mutable field [hot]
    lives in the heap at the struct's address [self], where every holder of
    the pointer sees it. *)
Record t := mk { T : GoType; p : loc; self : loc }.

Definition hot (b : t) (h : heap) : option bool :=
  match h !! self b with
  | Some (CVar (VBool x)) => Some x
  | _ => None
  end.

(** [newGenericSlice(val, p)]: [*p = val], then a new struct [{p: p}]
    ([hot] is false), returned by address. *)
Definition newGenericSlice (T : GoType) (val : list scalar) (p : loc) (h : heap)
    : result heap t :=
  match assign p (CSlice T val) h with
  | Some h' =>
    let a := fresh (dom h') in
    Ret (mk T p a) (<[a := CVar (VBool false)]> h')
  | None => Panic nilDeref
  end.

(** [Get]: [*p.p]. *)
Definition Get (b : t) (h : heap) : option (list scalar) :=
  match h !! p b with
  | Some (CSlice _ xs) => Some xs
  | _ => None
  end.

(** [Set] (here [Set_]): the first call replaces [*p.p] by
    [make([]T, 0, 1)] and sets [hot]; every call appends [any(s).(T)], which
    panics unless [T] is [string]. *)
Definition Set_ (b : t) (s : string) (h : heap) : outcome :=
  match hot b h with
  | Some was =>
    let cleared :=
      if was then Some h
      else
        match assign (p b) (CSlice (T b) []) h with
        | Some h' => Some (<[self b := CVar (VBool true)]> h')
        | None => None
        end in
    match cleared with
    | Some h1 =>
      match h1 !! p b with
      | Some (CSlice _ xs) =>
        if decide (typeOf (VString s) = T b) then
          Ret None (<[p b := CSlice (T b) (xs ++ [VString s])]> h1)
        else Panic badAssert
      | _ => Panic nilDeref
      end
    | None => Panic nilDeref
    end
  | None => Panic nilDeref
  end.

Section WithFloatConv.
Context `{FloatConv}.

(** [fmt]'s [%v] of one element: a string as it is, integers in decimal,
    a float64 as [%g] with the shortest precision, a [time.Duration] by its
    [String] method. *)
Definition formatElem (v : scalar) : string :=
  match v with
  | VString s => s
  | VFloat64 f => FormatFloat f "g" (-1) 64
  | VUint64 n => strconv.FormatUint n 10
  | VUint n => strconv.FormatUint n 10
  | VInt64 n => strconv.FormatInt n 10
  | VInt n => strconv.FormatInt n 10
  | VBool x => strconv.FormatBool x
  | VDuration d => time.String_ d
  end.

(** The elements of a slice as [%v] prints them: separated by one space. *)
Fixpoint joinSpace (xs : list string) : string :=
  match xs with
  | [] => ""
  | [x] => x
  | x :: rest => x +:+ " " +:+ joinSpace rest
  end.

(** [String]: [fmt.Sprintf("%v", *p.p)]. *)
Definition String_ (b : t) (h : heap) : result heap string :=
  match h !! p b with
  | Some (CSlice _ xs) => Ret ("[" +:+ joinSpace (formatElem <$> xs) +:+ "]") h
  | _ => Panic nilDeref
  end.

End WithFloatConv.

End genericSliceValue.

(** ** The Value interface and its implementations *)

(** [funcValue]: a caller's closure; it may write the caller's variables. *)
Definition funcValue := string -> heap -> outcome.

(** [ValidateFunc]. *)
Definition ValidateFunc := string -> option error.

Inductive Value :=
| ValGeneric (b : genericValue.t)
| ValSlice (b : genericSliceValue.t)
| ValFunc (f : funcValue).

(** The interface method [Value.Set], by dynamic dispatch. *)
Definition Value_Set `{FloatConv} (v : Value) (s : string) (h : heap) : outcome :=
  match v with
  | ValGeneric b => genericValue.Set_ b s h
  | ValSlice b => genericSliceValue.Set_ b s h
  | ValFunc f => f s h
  end.

(** [isBoolValue]: only [genericValue] implements [BoolValue]. *)
Definition isBoolValue (v : Value) : bool :=
  match v with
  | ValGeneric b => genericValue.IsBoolFlag b
  | _ => false
  end.

(** ** Flag descriptors and the constructors of xflags.go *)

(** The struct [Flag].  [Var] fixes the fields [Name], [ShortName], [Usage],
    [MinCount], [MaxCount] and [Value]. *)
Module Flag.

(** Modelled from the spec: the fields [Validate] and [Choices] ("optional
    validator function, optional finite set of allowed literal values"); the
    struct's declaration is in a file that is not part of the sources. *)
Record t := mk {
  Name : string;
  ShortName : string;
  Usage : string;
  MinCount : Z;
  MaxCount : Z;
  Value : Value;
  Validate : option ValidateFunc;
  Choices : option (list string)
}.

End Flag.

(** Modelled from the spec: the constants [defaultMinNArgs] and
    [defaultMaxNArgs] ("Default cardinality: minimum 0, maximum 1"). *)
Definition defaultMinNArgs : Z := 0.
Definition defaultMaxNArgs : Z := 1.

Record FlagBuilder := { flag : Flag.t }.

(** [len(name)]: the number of bytes. *)
Definition len (s : string) : Z := Z.of_nat (String.length s).

Definition Var (value : Value) (name usage : string) : FlagBuilder :=
  let c :=
    {| flag := {| Flag.Name := name;
                  Flag.ShortName := "";
                  Flag.Usage := usage;
                  Flag.MinCount := defaultMinNArgs;
                  Flag.MaxCount := defaultMaxNArgs;
                  Flag.Value := value;
                  Flag.Validate := None;
                  Flag.Choices := None |} |} in
  if len name =? 1 then
    {| flag := {| Flag.Name := "";
                  Flag.ShortName := Flag.Name (flag c);
                  Flag.Usage := Flag.Usage (flag c);
                  Flag.MinCount := Flag.MinCount (flag c);
                  Flag.MaxCount := Flag.MaxCount (flag c);
                  Flag.Value := Flag.Value (flag c);
                  Flag.Validate := Flag.Validate (flag c);
                  Flag.Choices := Flag.Choices (flag c) |} |}
  else c.

(** Modelled from the spec: the builder method [NArgs(min, max)] ("sets
    occurrence bounds"). *)
Definition NArgs (min max : Z) (c : FlagBuilder) : FlagBuilder :=
  {| flag := {| Flag.Name := Flag.Name (flag c);
                Flag.ShortName := Flag.ShortName (flag c);
                Flag.Usage := Flag.Usage (flag c);
                Flag.MinCount := min;
                Flag.MaxCount := max;
                Flag.Value := Flag.Value (flag c);
                Flag.Validate := Flag.Validate (flag c);
                Flag.Choices := Flag.Choices (flag c) |} |}.

(** Sequencing of calls that may panic. *)
Definition bind {S A B : Type} (r : result S A) (k : A -> S -> result S B) : result S B :=
  match r with
  | Ret a s => k a s
  | Panic msg => Panic msg
  end.

Definition viaGeneric (val : scalar) (p : loc) (isbool : bool) (name usage : string)
    (h : heap) : result heap FlagBuilder :=
  bind (genericValue.newGeneric val p isbool h)
       (fun b h' => Ret (Var (ValGeneric b) name usage) h').

Definition Bool (p : loc) (name : string) (value : bool) (usage : string) :=
  viaGeneric (VBool value) p true name usage.

Definition Duration (p : loc) (name : string) (value : Z) (usage : string) :=
  viaGeneric (VDuration value) p false name usage.

Definition Float64 (p : loc) (name : string) (value : float64.t) (usage : string) :=
  viaGeneric (VFloat64 value) p false name usage.

Definition Func (name usage : string) (fn : funcValue) : FlagBuilder :=
  Var (ValFunc fn) name usage.

Definition Int (p : loc) (name : string) (value : Z) (usage : string) :=
  viaGeneric (VInt value) p false name usage.

Definition Int64 (p : loc) (name : string) (value : Z) (usage : string) :=
  viaGeneric (VInt64 value) p false name usage.

Definition String_ (p : loc) (name value usage : string) :=
  viaGeneric (VString value) p false name usage.

Definition Strings (p : loc) (name : string) (value : list string) (usage : string)
    (h : heap) : result heap FlagBuilder :=
  bind (genericSliceValue.newGenericSlice TString (VString <$> value) p h)
       (fun b h' => Ret (NArgs 0 0 (Var (ValSlice b) name usage)) h').

Definition Uint (p : loc) (name : string) (value : Z) (usage : string) :=
  viaGeneric (VUint value) p false name usage.

Definition Uint64 (p : loc) (name : string) (value : Z) (usage : string) :=
  viaGeneric (VUint64 value) p false name usage.

(** ** RunWithArgs *)

(** The process state a run can touch: the variables, and the lines written
    to [os.Stdout] and [os.Stderr]. *)
Record world := { mem : heap; stdout : list string; stderr : list string }.

Section Run.

(** The type [*Command] and its method [Run] are declared in a file that is
    not part of the sources: they are parameters here ([Command] stands for
    the pointer type, nil included).  A [Commander] is anything with a
    [Command()] method. *)
Variable Command : Type.
Variable Command_Run : Command -> list string -> world -> result world Z.
Variable errorText : error -> string.

Definition Commander := world -> result world (Command * option error).

(** [fmt.Fprintln(os.Stderr, err)]. *)
Definition printErr (err : error) (w : world) : world :=
  {| mem := mem w; stdout := stdout w; stderr := stderr w ++ [errorText err] |}.

Definition RunWithArgs (cmd : Commander) (args : list string) (w : world) : result world Z :=
  bind (cmd w) (fun r w' =>
    match r with
    | (_, Some err) => Ret 1 (printErr err w')
    | (c, None) => Command_Run c args w'
    end).

(** [Run]: [RunWithArgs(cmd, os.Args[1:]...)].  [osArgs] is [os.Args];
    slicing an empty [os.Args] from 1 is out of range. *)
Definition Run (cmd : Commander) (osArgs : list string) (w : world) : result world Z :=
  match osArgs with
  | [] => Panic "slice bounds out of range [1:0]"
  | _ :: args => RunWithArgs cmd args w
  end.

End Run.

(** ** The argument matcher and the dispatcher

    The files that hold the flag builder's remaining methods, the argument
    matcher and [Command.Run] are not part of the sources.  This module
    follows the specification's sections 4.2 to 4.4 for them; the value boxes
    it drives are the ones above. *)

Module Matcher.

(** Modelled from the spec: the builder method [Choices(values...)], missing
    from the sources ("restricts acceptable literals to the given finite
    set"). *)
Definition Choices (values : list string) (c : FlagBuilder) : FlagBuilder :=
  {| flag := {| Flag.Name := Flag.Name (flag c);
                Flag.ShortName := Flag.ShortName (flag c);
                Flag.Usage := Flag.Usage (flag c);
                Flag.MinCount := Flag.MinCount (flag c);
                Flag.MaxCount := Flag.MaxCount (flag c);
                Flag.Value := Flag.Value (flag c);
                Flag.Validate := Flag.Validate (flag c);
                Flag.Choices := Some values |} |}.

(** Modelled from the spec: the builder method [Validate(fn)], missing from
    the sources ("attaches an additional caller-supplied predicate over the
    raw literal"). *)
Definition Validate (fn : ValidateFunc) (c : FlagBuilder) : FlagBuilder :=
  {| flag := {| Flag.Name := Flag.Name (flag c);
                Flag.ShortName := Flag.ShortName (flag c);
                Flag.Usage := Flag.Usage (flag c);
                Flag.MinCount := Flag.MinCount (flag c);
                Flag.MaxCount := Flag.MaxCount (flag c);
                Flag.Value := Flag.Value (flag c);
                Flag.Validate := Some fn;
                Flag.Choices := Flag.Choices (flag c) |} |}.

(** Modelled from the spec: the finalize operation, missing from the sources
    ("Finalization rejects a descriptor whose name fields are both empty"). *)
Definition Build (c : FlagBuilder) : Flag.t + error :=
  if bool_decide (Flag.Name (flag c) = "" /\ Flag.ShortName (flag c) = "") then
    inr (errorString "xflags: flag has no name")
  else inl (flag c).

(** Modelled from the spec: the identifier a diagnostic names a flag by
    (the long name, or the short name of a flag that has no long name). *)
Definition flagName (f : Flag.t) : string :=
  if bool_decide (Flag.Name f = "") then Flag.ShortName f else Flag.Name f.

Definition notAChoice : error := errorString "value is not one of the allowed choices".

(** Modelled from the spec: step 1 of the validation order, missing from the
    sources ("If a choices set exists and the literal is not a member ->
    Argument Error"). *)
Definition checkChoices (f : Flag.t) (lit : string) : option error :=
  match Flag.Choices f with
  | Some cs =>
    if bool_decide (lit ∈ cs) then None
    else Some (ArgumentError (flagName f) lit notAChoice)
  | None => None
  end.

(** Modelled from the spec: step 2 of the validation order, missing from the
    sources ("If a validator exists and it returns an error -> Argument Error
    wrapping that error, tagged with the flag name"). *)
Definition checkValidate (f : Flag.t) (lit : string) : option error :=
  match Flag.Validate f with
  | Some fn =>
    match fn lit with
    | Some e => Some (ArgumentError (flagName f) lit e)
    | None => None
    end
  | None => None
  end.

Section WithFloatConv.
Context `{FloatConv}.

(** Modelled from the spec: the matcher's handling of one supplied literal,
    missing from the sources ("strict and short-circuiting": choices, then
    the validator, then the value box's [Set], whose failure is wrapped into
    an Argument Error). *)
Definition applyLiteral (f : Flag.t) (lit : string) (h : heap) : outcome :=
  match checkChoices f lit with
  | Some e => Ret (Some e) h
  | None =>
    match checkValidate f lit with
    | Some e => Ret (Some e) h
    | None =>
      match Value_Set (Flag.Value f) lit h with
      | Ret (Some e) h' => Ret (Some (ArgumentError (flagName f) lit e)) h'
      | r => r
      end
    end
  end.

(** Modelled from the spec: the three kinds of token (long form with an
    optional embedded value, short form, anything else). *)
Inductive token :=
| TLong (name : string) (value : option string)
| TShort (name : string)
| TPositional (text : string).

(** Split [name=value] at the first ['=']. *)
Fixpoint splitEq (s : string) : string * option string :=
  match s with
  | EmptyString => ("", None)
  | String c s' =>
    if byte c =? 61 then ("", Some s')
    else let '(n, v) := splitEq s' in (String c n, v)
  end.

(** Modelled from the spec: token classification, missing from the sources
    ("A token beginning with -- (long form) or a single - followed by exactly
    one character (short form) is a flag token"). *)
Definition classify (tok : string) : token :=
  match tok with
  | String c0 (String c1 rest) =>
    if (byte c0 =? 45) && (byte c1 =? 45) then
      let '(n, v) := splitEq rest in TLong n v
    else if (byte c0 =? 45) && bool_decide (rest = "") then TShort (String c1 "")
    else TPositional tok
  | _ => TPositional tok
  end.

(** Modelled from the spec: lookup of a flag token in the active node's
    table, by long name or by short name.  Tables of ancestor nodes are not
    modelled. *)
Definition findFlag (flags : list Flag.t) (t : token) : option Flag.t :=
  match t with
  | TLong n _ =>
    List.find (fun f => bool_decide (Flag.Name f = n /\ n <> "")) flags
  | TShort n =>
    List.find (fun f => bool_decide (Flag.ShortName f = n)) flags
  | TPositional _ => None
  end.

Definition tokenName (t : token) : string :=
  match t with
  | TLong n _ => n
  | TShort n => n
  | TPositional s => s
  end.

(** Modelled from the spec: the reserved tokens [-h] and [--help]. *)
Definition isHelp (tok : string) : bool :=
  bool_decide (tok = "-h") || bool_decide (tok = "--help").

(** Modelled from the spec: how one pass over the tokens ends (help shown,
    matched with the positional arguments and the occurrence counts, or
    failed). *)
Inductive parsed :=
| HelpShown
| Matched (positional : list string) (counts : gmap string nat)
| Failed (e : error).

Definition bump (f : Flag.t) (counts : gmap string nat) : gmap string nat :=
  <[flagName f := S (default O (counts !! flagName f))]> counts.

(** Modelled from the spec: the matcher's pass, missing from the sources
    ("single left-to-right pass over tokens, no backtracking"; an embedded
    [=value]; otherwise the next token, unless the box is boolean-capable,
    in which case the literal is "true" and "the next token is left for the
    subsequent iteration"; unknown flags fail at once; [-h] / [--help]
    short-circuits).  A flag that needs a value and is the last token is
    reported as an error. *)
Fixpoint parseTokens (flags : list Flag.t) (toks : list string)
    (counts : gmap string nat) (pos : list string) (h : heap) : result heap parsed :=
  match toks with
  | [] => Ret (Matched pos counts) h
  | tok :: rest =>
    if isHelp tok then Ret HelpShown h
    else
      match classify tok with
      | TPositional s => parseTokens flags rest counts (pos ++ [s]) h
      | t =>
        match findFlag flags t with
        | None => Ret (Failed (errorString ("unknown flag: " +:+ tokenName t))) h
        | Some f =>
          let embedded := match t with TLong _ (Some v) => Some v | _ => None end in
          match embedded with
          | Some v =>
            match applyLiteral f v h with
            | Ret None h' => parseTokens flags rest (bump f counts) pos h'
            | Ret (Some e) h' => Ret (Failed e) h'
            | Panic msg => Panic msg
            end
          | None =>
            if isBoolValue (Flag.Value f) then
              match applyLiteral f "true" h with
              | Ret None h' => parseTokens flags rest (bump f counts) pos h'
              | Ret (Some e) h' => Ret (Failed e) h'
              | Panic msg => Panic msg
              end
            else
              match rest with
              | v :: rest' =>
                match applyLiteral f v h with
                | Ret None h' => parseTokens flags rest' (bump f counts) pos h'
                | Ret (Some e) h' => Ret (Failed e) h'
                | Panic msg => Panic msg
                end
              | [] =>
                Ret (Failed (ArgumentError (flagName f) ""
                               (errorString "flag needs an argument"))) h
              end
          end
        end
      end
  end.

(** Modelled from the spec: the cardinality check after the pass, missing
    from the sources ("a count below minimum yields a missing required flag
    error; a count above a bounded maximum yields a too many occurrences
    error"; a maximum of 0 is unbounded). *)
Fixpoint checkCounts (flags : list Flag.t) (counts : gmap string nat) : option error :=
  match flags with
  | [] => None
  | f :: fs =>
    let n := Z.of_nat (default O (counts !! flagName f)) in
    if n <? Flag.MinCount f then
      Some (errorString ("missing required flag: " +:+ flagName f))
    else if negb (Flag.MaxCount f =? 0) && (Flag.MaxCount f <? n) then
      Some (errorString ("too many occurrences of flag: " +:+ flagName f))
    else checkCounts fs counts
  end.

(** Modelled from the spec: parsing one flag set against a token list, as the
    tests' helper [parseFlag] does. *)
Definition parseArgs (flags : list Flag.t) (toks : list string) (h : heap)
    : result heap parsed :=
  bind (parseTokens flags toks ∅ [] h) (fun r h' =>
    match r with
    | Matched pos counts =>
      match checkCounts flags counts with
      | Some e => Ret (Failed e) h'
      | None => Ret r h'
      end
    | _ => Ret r h'
    end).

(** Modelled from the spec: a command node (name, flags, children and
    optional handler: "maps leftover arguments to an integer exit code"). *)
#[local] Unset Elimination Schemes.
Inductive Command :=
| mkCommand (name : string) (flags : list Flag.t) (subcommands : list Command)
    (handler : option (list string -> world -> result world Z)).

#[local] Set Elimination Schemes.

Definition cmdName (c : Command) : string := let 'mkCommand n _ _ _ := c in n.
Definition cmdFlags (c : Command) : list Flag.t := let 'mkCommand _ fs _ _ := c in fs.
Definition cmdSubcommands (c : Command) : list Command := let 'mkCommand _ _ cs _ := c in cs.
Definition cmdHandler (c : Command) := let 'mkCommand _ _ _ hd := c in hd.

(** Modelled from the spec: routing ("if it exactly matches a declared child
    Command Node's name before any flag token has been seen"). *)
Fixpoint route (c : Command) (toks : list string) : Command * list string :=
  match toks with
  | [] => (c, [])
  | tok :: rest =>
    match List.find (fun k => bool_decide (cmdName k = tok)) (cmdSubcommands c) with
    | Some k => route k rest
    | None => (c, toks)
    end
  end.

Variable usageText : Command -> string.
Variable errorText : error -> string.

(** Modelled from the spec: [Command.Run], missing from the sources (section
    4.4: help ends with exit code 0; any matching error or a missing handler
    writes to the error stream and yields a non-zero code; otherwise the
    handler runs on the leftover arguments and its code is returned). *)
Definition Run (c : Command) (args : list string) (w : world) : result world Z :=
  let '(node, toks) := route c args in
  match parseArgs (cmdFlags node) toks (mem w) with
  | Panic msg => Panic msg
  | Ret r h' =>
    let w' := {| mem := h'; stdout := stdout w; stderr := stderr w |} in
    match r with
    | HelpShown =>
      Ret 0 {| mem := h'; stdout := stdout w ++ [usageText node]; stderr := stderr w |}
    | Failed e =>
      Ret 1 {| mem := h'; stdout := stdout w; stderr := stderr w ++ [errorText e] |}
    | Matched pos _ =>
      match cmdHandler node with
      | Some hd => hd pos w'
      | None =>
        Ret 1 {| mem := h'; stdout := stdout w; stderr := stderr w ++ [usageText node] |}
      end
    end
  end.

End WithFloatConv.
End Matcher.

(** ** An implementation of [FloatConv]

    Correctly rounded parsing of decimal literals ([[+-]digits[.digits][e[+-]digits]],
    [inf], [infinity], [nan]) and shortest round-tripping ['f'] formatting,
    over exact integer arithmetic.  It is used to run the model on concrete
    inputs; no theorem about the package depends on it. *)

Module decimalFloat.

(** [(-1)^neg * mant * 10^exp10], rounded to nearest, ties to even. *)
Definition round (neg : bool) (mant exp10 : Z) : float64.t :=
  match mant with
  | Zpos m =>
    if 0 <=? exp10 then
      binary_normalize float64.prec float64.emax (cond_Zopp neg (mant * 10 ^ exp10)) 0 neg
    else
      SFdiv float64.prec float64.emax
        (S754_finite neg m 0) (S754_finite false (Z.to_pos (10 ^ (- exp10))) 0)
  | _ => S754_zero neg
  end.

(** Leading digits: accumulated value, how many, and the rest. *)
Fixpoint scanDigits (s : string) (acc count : Z) : Z * Z * string :=
  match s with
  | String c s' =>
    if isDigit (byte c) then scanDigits s' (acc * 10 + (byte c - 48)) (count + 1)
    else (acc, count, s)
  | EmptyString => (acc, count, s)
  end.

Definition lowerString (s : string) : string :=
  string_of_list_ascii
    (List.map (fun c => if (65 <=? byte c) && (byte c <=? 90)
                        then ascii_of_N (Z.to_N (byte c + 32)) else c)
              (list_ascii_of_string s)).

Definition splitSign (s : string) : bool * string :=
  match s with
  | String c rest =>
    if byte c =? 43 then (false, rest)
    else if byte c =? 45 then (true, rest)
    else (false, s)
  | EmptyString => (false, s)
  end.

Definition parseDecimal (s : string) : option (bool * Z * Z) :=
  let '(neg, body) := splitSign s in
  let '(ip, ni, r1) := scanDigits body 0 0 in
  let '(mant, nf, r2) :=
    match r1 with
    | String c r => if byte c =? 46 then scanDigits r ip 0 else (ip, 0, r1)
    | EmptyString => (ip, 0, r1)
    end in
  if ni + nf =? 0 then None
  else
    match r2 with
    | EmptyString => Some (neg, mant, - nf)
    | String c r =>
      if lower (byte c) =? 101 then
        let '(eneg, r') := splitSign r in
        let '(e, ne, r3) := scanDigits r' 0 0 in
        if (ne =? 0) || negb (bool_decide (r3 = "")) then None
        else Some (neg, mant, (if eneg then - Z.min e 100000 else Z.min e 100000) - nf)
      else None
    end.

Definition parse (s : string) (bitSize : Z) : float64.t * option error :=
  let fn := "ParseFloat" in
  let low := lowerString s in
  if bool_decide (low ∈ ["inf"; "+inf"; "infinity"; "+infinity"]) then (S754_infinity false, None)
  else if bool_decide (low ∈ ["-inf"; "-infinity"]) then (S754_infinity true, None)
  else if bool_decide (low = "nan") then (S754_nan, None)
  else
    match parseDecimal s with
    | None => (S754_zero false, Some (NumError fn s ErrSyntax))
    | Some (neg, mant, e) =>
      match round neg mant e with
      | S754_infinity sg => (S754_infinity sg, Some (NumError fn s ErrRange))
      | f => (f, None)
      end
    end.

(** Number of decimal digits of a positive integer. *)
Fixpoint decDigits (fuel : nat) (n : Z) : Z :=
  match fuel with
  | O => 0
  | S fuel' => if n <? 1 then 0 else 1 + decDigits fuel' (n / 10)
  end.

(** The shortest digit string [d] (with its exponent: the value is
    [d * 10^q]) that rounds back to [m * 2^e]; among those of that length,
    the one nearest to it.  All quantities are numerators over [2^k]. *)
Fixpoint shortestFrom (fuel : nat) (q : Z) (x lo hi k2 : Z) (inclusive : bool) : Z * Z :=
  (* unit = 10^q, as a numerator over k2 when multiplied by [scale] *)
  let num v := if 0 <=? q then v * 10 ^ q * k2 else v * k2 in
  let den := if 0 <=? q then 1 else 10 ^ (- q) in
  (* compare v * 10^q with y / k2, i.e. num v with y * den *)
  let down := (x * den) / (if 0 <=? q then 10 ^ q * k2 else k2) in
  let up := down + 1 in
  let okdown :=
    if inclusive then lo * den <=? num down else lo * den <? num down in
  let okup :=
    if inclusive then num up <=? hi * den else num up <? hi * den in
  let exact := num down =? x * den in
  match fuel with
  | O => (down, q)
  | S fuel' =>
    if (0 <? down) && (exact || okdown || okup) then
      if exact then (down, q)
      else if okdown && okup then
        let twice := 2 * x * den - (num down + num up) in
        if twice <? 0 then (down, q)
        else if 0 <? twice then (up, q)
        else if Z.even down then (down, q) else (up, q)
      else if okdown then (down, q)
      else (up, q)
    else shortestFrom fuel' (q - 1) x lo hi k2 inclusive
  end.

Definition shortest (m : positive) (e : Z) : Z * Z :=
  let k := Z.max 0 (2 - e) in
  let k2 := 2 ^ k in
  let x := Zpos m * 2 ^ (e + k) in
  let boundary := (Zpos m =? 2 ^ 52) && (-1074 <? e) in
  let lo := if boundary then (4 * Zpos m - 1) * 2 ^ (e + k - 2)
            else (2 * Zpos m - 1) * 2 ^ (e + k - 1) in
  let hi := (2 * Zpos m + 1) * 2 ^ (e + k - 1) in
  let top := decDigits 400 (x / k2) in
  shortestFrom 1200 top x lo hi k2 (Z.even (Zpos m)).

Definition zeros (n : Z) : string :=
  string_of_list_ascii (List.repeat "0"%char (Z.to_nat n)).

(** ['f'] layout of the digits [d * 10^q]. *)
Definition layout (d q : Z) : string :=
  let ds := strconv.formatDec 400 d "" in
  let n := Z.of_nat (String.length ds) in
  if 0 <=? q then ds +:+ zeros q
  else if - q <? n then
    String.substring 0 (Z.to_nat (n + q)) ds +:+ "."
      +:+ String.substring (Z.to_nat (n + q)) (Z.to_nat (- q)) ds
  else "0." +:+ zeros (- q - n) +:+ ds.

(** Trailing zeros of [d] move into the exponent. *)
Fixpoint normalize (fuel : nat) (d q : Z) : Z * Z :=
  match fuel with
  | O => (d, q)
  | S fuel' =>
    if (0 <? d) && (d mod 10 =? 0) then normalize fuel' (d / 10) (q + 1) else (d, q)
  end.

Definition format (f : float64.t) (fmt : ascii) (prec bitSize : Z) : string :=
  match f with
  | S754_nan => "NaN"
  | S754_infinity false => "+Inf"
  | S754_infinity true => "-Inf"
  | S754_zero sg => if sg then "-0" else "0"
  | S754_finite sg m e =>
    let '(d, q) := shortest m e in
    let '(d, q) := normalize 400 d q in
    (if sg then "-" else "") +:+ layout d q
  end.

End decimalFloat.

Definition decimalFloat_conv : FloatConv :=
  {| ParseFloat := decimalFloat.parse; FormatFloat := decimalFloat.format |}.


(** * Vocabulary of the statements *)

(** ** Base-10 integer literals *)

Fixpoint allDigits (s : string) : bool :=
  match s with
  | EmptyString => true
  | String c s' => isDigit (byte c) && allDigits s'
  end.

(** The digits of [s] read after the digits already worth [n]. *)
Fixpoint decAcc (n : Z) (s : string) : Z :=
  match s with
  | EmptyString => n
  | String c s' => decAcc (n * 10 + (byte c - 48)) s'
  end.

(** A non-negative base-10 integer literal (one or more decimal digits) and
    the number it denotes. *)
Definition uintLit (s : string) : option Z :=
  match s with
  | EmptyString => None
  | _ => if allDigits s then Some (decAcc 0 s) else None
  end.

(** A signed base-10 integer literal: an optional sign, then digits. *)
Definition intLit (s : string) : option Z :=
  match s with
  | EmptyString => None
  | String c rest =>
    if byte c =? 43 then uintLit rest
    else if byte c =? 45 then Z.opp <$> uintLit rest
    else uintLit s
  end.

(** [ParseUint]'s cutoff at base 10. *)
Definition cutoff10 : Z := strconv.maxUint64 / 10 + 1.

(** ** Sequences of calls *)

(** [n] calls of a slice box's [Set], in order; the first error or panic
    ends the run. *)
Fixpoint setAll (b : genericSliceValue.t) (ls : list string) (h : heap) : outcome :=
  match ls with
  | [] => Ret None h
  | l :: ls' =>
    match genericSliceValue.Set_ b l h with
    | Ret None h' => setAll b ls' h'
    | r => r
    end
  end.

(** [leaves v q]: a call of [v]'s [Set] does not write address [q].  The two
    boxes of the package write only what they point to; for a caller's
    closure it is an assumption on the closure. *)
Definition leaves (v : Value) (q : loc) : Prop :=
  match v with
  | ValGeneric g => genericValue.p g <> q
  | ValSlice s => genericSliceValue.p s <> q /\ genericSliceValue.self s <> q
  | ValFunc f => forall s h e h', f s h = Ret e h' -> h' !! q = h !! q
  end.

Section Calls.
Context `{FloatConv}.

(** Calls of [Set] on any boxes, in command-line order; the first error or
    panic ends the run. *)
Fixpoint runCalls (calls : list (Value * string)) (h : heap) : outcome :=
  match calls with
  | [] => Ret None h
  | (v, s) :: rest =>
    match Value_Set v s h with
    | Ret None h' => runCalls rest h'
    | r => r
    end
  end.

End Calls.

(** ** Fixtures: the tests of flag_test.go *)

(** One declared variable, at address 1. *)
Definition oneVar (v : scalar) : heap := {[ 1%positive := CVar v ]}.

(** [parseFlag(flag, args...)] of the tests: build the flag, then match. *)
Definition runFlag (mk : heap -> result heap FlagBuilder) (toks : list string) (h : heap)
    : result heap Matcher.parsed :=
  bind (mk h) (fun fb h' =>
    match Matcher.Build fb with
    | inl f => @Matcher.parseArgs decimalFloat_conv [f] toks h'
    | inr e => Ret (Matcher.Failed e) h'
    end).

Definition finalVar (r : result heap Matcher.parsed) (p : loc) : option cell :=
  match r with
  | Ret (Matcher.Matched _ _) h => h !! p
  | _ => None
  end.

Definition failure (r : result heap Matcher.parsed) : option error :=
  match r with
  | Ret (Matcher.Failed e) _ => Some e
  | _ => None
  end.

(** [String(&v, "foo", "", "").Choices("bar", "baz")]. *)
Definition choicesFlag (h : heap) : result heap FlagBuilder :=
  bind (String_ 1 "foo" "" "" h) (fun fb h' => Ret (Matcher.Choices ["bar"; "baz"] fb) h').

(** The flag of [TestFlagChoices], on the string variable at address 1. *)
Definition fooFlag : Flag.t :=
  flag (Matcher.Choices ["bar"; "baz"]
          (Var (ValGeneric (genericValue.mk TString 1 false)) "foo" "")).

(** A [uint64] flag with choices and a validator that rejects ["7"]. *)
Definition guardedFlag : Flag.t :=
  {| Flag.Name := "n"; Flag.ShortName := ""; Flag.Usage := "";
     Flag.MinCount := 0; Flag.MaxCount := 1;
     Flag.Value := ValGeneric (genericValue.mk TUint64 1 false);
     Flag.Validate :=
       Some (fun arg => if bool_decide (arg = "7") then Some (errorString "unlucky") else None);
     Flag.Choices := Some ["7"; "8"] |}.

(** A command with one boolean flag and a handler that exits with 7. *)
Definition demoFlag : Flag.t :=
  flag (Var (ValGeneric (genericValue.mk TBool 1 true)) "foo" "").

Definition demoCommand : Matcher.Command :=
  Matcher.mkCommand "demo" [demoFlag] [] (Some (fun _ w => Ret 7 w)).

Definition demoText (e : error) : string :=
  match e with
  | NumError fn num _ => "strconv." +:+ fn +:+ ": parsing " +:+ num
  | errorString msg => msg
  | ArgumentError f _ _ => "Argument error: --" +:+ f
  end.

Definition demoRun : Matcher.Command -> list string -> world -> result world Z :=
  @Matcher.Run decimalFloat_conv (fun c => "usage: " +:+ Matcher.cmdName c) demoText.

Definition demoWorld : world :=
  {| mem := oneVar (VBool false); stdout := []; stderr := [] |}.

(** ** Boxes and their variables *)

(** A box is well typed in a heap when its pointer holds a variable of the
    box's type parameter. *)
Definition wellTyped (b : genericValue.t) (h : heap) : Prop :=
  exists cur, h !! genericValue.p b = Some (CVar cur) /\ typeOf cur = genericValue.T b.

Section Convert.
Context `{FloatConv}.

(** The conversion [Set] applies to a literal, chosen by the type of the
    variable's current value [cur]: the value to store, or the error. *)
Definition convertAs (cur : scalar) (s : string) : scalar + error :=
  match cur with
  | VString _ => inl (VString s)
  | VFloat64 _ =>
    match ParseFloat s 64 with (_, Some e) => inr e | (v, None) => inl (VFloat64 v) end
  | VUint64 _ =>
    match strconv.ParseUint s 10 64 with
    | (_, Some e) => inr e | (v, None) => inl (VUint (uint v)) end
  | VUint _ =>
    match strconv.ParseUint s 10 32 with
    | (_, Some e) => inr e | (v, None) => inl (VUint (uint v)) end
  | VInt64 _ =>
    match strconv.ParseInt s 10 64 with
    | (_, Some e) => inr e | (v, None) => inl (VInt64 v) end
  | VInt _ =>
    match strconv.ParseInt s 10 32 with
    | (_, Some e) => inr e | (v, None) => inl (VInt (int v)) end
  | VBool _ =>
    match strconv.ParseBool s with
    | (_, Some e) => inr e | (v, None) => inl (VBool v) end
  | VDuration _ =>
    match time.ParseDuration s with inr e => inr e | inl v => inl (VDuration v) end
  end.

End Convert.

(** ** The constructors of xflags.go *)

(** The scalar constructors: [declares d isbool mk] says that [mk] is one of
    them, called with the default [d]. *)
Definition declares (d : scalar) (isbool : bool) (p : loc) (name usage : string)
    (mk : heap -> result heap FlagBuilder) : Prop :=
  (exists x, d = VBool x /\ isbool = true /\ mk = Bool p name x usage)
  \/ (exists x, d = VDuration x /\ isbool = false /\ mk = Duration p name x usage)
  \/ (exists x, d = VFloat64 x /\ isbool = false /\ mk = Float64 p name x usage)
  \/ (exists x, d = VInt x /\ isbool = false /\ mk = Int p name x usage)
  \/ (exists x, d = VInt64 x /\ isbool = false /\ mk = Int64 p name x usage)
  \/ (exists x, d = VString x /\ isbool = false /\ mk = String_ p name x usage)
  \/ (exists x, d = VUint x /\ isbool = false /\ mk = Uint p name x usage)
  \/ (exists x, d = VUint64 x /\ isbool = false /\ mk = Uint64 p name x usage).

(** * Properties *)

(** ** The library models on known inputs *)

Lemma byte_range (c : ascii) : 0 <= byte c < 256.
Proof.
  unfold byte. pose proof (N_ascii_bounded c) as Hb. lia.
Qed.

Example ParseUint_ex1 : strconv.ParseUint "18446744073709551615" 10 64 = (2 ^ 64 - 1, None).
Proof. vm_compute. reflexivity. Qed.

Example ParseUint_ex2 :
  strconv.ParseUint "18446744073709551616" 10 64
  = (2 ^ 64 - 1, Some (NumError "ParseUint" "18446744073709551616" ErrRange)).
Proof. vm_compute. reflexivity. Qed.

Example ParseUint_ex3 : strconv.ParseUint "4294967296" 10 32 = (2 ^ 32 - 1, Some (NumError "ParseUint" "4294967296" ErrRange)).
Proof. vm_compute. reflexivity. Qed.

Example ParseUint_ex4 : strconv.ParseUint "+1" 10 64 = (0, Some (NumError "ParseUint" "+1" ErrSyntax)).
Proof. vm_compute. reflexivity. Qed.

Example ParseUint_ex5 : strconv.ParseUint "0x_1F" 0 64 = (31, None).
Proof. vm_compute. reflexivity. Qed.

Example ParseInt_ex1 : strconv.ParseInt "-2147483648" 10 32 = (-2147483648, None).
Proof. vm_compute. reflexivity. Qed.

Example ParseInt_ex2 : strconv.ParseInt "2147483648" 10 32 = (2147483647, Some (NumError "ParseInt" "2147483648" ErrRange)).
Proof. vm_compute. reflexivity. Qed.

Example ParseInt_ex3 : strconv.ParseInt "-9223372036854775808" 10 64 = (-9223372036854775808, None).
Proof. vm_compute. reflexivity. Qed.

Example FormatInt_ex1 : strconv.FormatInt (-9223372036854775808) 10 = "-9223372036854775808".
Proof. vm_compute. reflexivity. Qed.

Example FormatUint_ex1 : strconv.FormatUint 0 10 = "0".
Proof. vm_compute. reflexivity. Qed.

Example ParseDuration_ex1 : time.ParseDuration "1s" = inl 1000000000.
Proof. vm_compute. reflexivity. Qed.

Example ParseDuration_ex2 : time.ParseDuration "1h15m30.918273645s" = inl 4530918273645.
Proof. vm_compute. reflexivity. Qed.

Example ParseDuration_ex3 : time.ParseDuration "-1.5h" = inl (-5400000000000).
Proof. vm_compute. reflexivity. Qed.

Example ParseDuration_ex4 : time.ParseDuration "0" = inl 0.
Proof. vm_compute. reflexivity. Qed.

Example ParseDuration_ex5 :
  time.ParseDuration "3" = inr (errorString ("time: missing unit in duration " +:+ time.quote "3")).
Proof. vm_compute. reflexivity. Qed.

Example ParseDuration_ex6 : time.ParseDuration "0.100000000000000000000h" = inl 360000000000.
Proof. vm_compute. reflexivity. Qed.

Example Duration_String_ex1 : time.String_ 1000000000 = "1s".
Proof. vm_compute. reflexivity. Qed.

Example Duration_String_ex2 : time.String_ 4530918273645 = "1h15m30.918273645s".
Proof. vm_compute. reflexivity. Qed.

Example Duration_String_ex3 : time.String_ 1500000 = "1.5ms".
Proof. vm_compute. reflexivity. Qed.

Example Duration_String_ex4 : time.String_ (-60000000000) = "-1m0s".
Proof. vm_compute. reflexivity. Qed.

Example Duration_String_ex5 : time.String_ 0 = "0s".
Proof. vm_compute. reflexivity. Qed.

Example decimalFloat_ex1 :
  List.map (fun s => decimalFloat.format (fst (decimalFloat.parse s 64)) "f" (-1) 64)
    ["1.0"; "0.1"; "0.3"; "1e21"; "123456789.125"; "-2.50"; "5e-324"; "1e23";
     "0.30000000000000004"; "9007199254740993"; "4.35"; "1.7976931348623157e308"; "2.2250738585072014e-308"]
  = ["1"; "0.1"; "0.3"; "1000000000000000000000"; "123456789.125"; "-2.5";
     "0." +:+ decimalFloat.zeros 323 +:+ "5"; "100000000000000000000000";
     "0.30000000000000004"; "9007199254740992"; "4.35";
     "17976931348623157" +:+ decimalFloat.zeros 292;
     "0." +:+ decimalFloat.zeros 307 +:+ "22250738585072014"].
Proof. vm_compute. reflexivity. Qed.

(** ** Fuel

    The two fuelled loops of the library models never run dry on the inputs
    they are given. *)

(** Twenty digits are enough for a [uint64]: more fuel changes nothing. *)
Lemma formatDec_fuel (fuel : nat) : forall (u : Z) (acc : string),
  0 <= u < 10 ^ Z.of_nat (S fuel) ->
  strconv.formatDec (S (S fuel)) u acc = strconv.formatDec (S fuel) u acc.
Proof.
  induction fuel as [|fuel IH]; intros u acc Hu.
  - change (10 ^ Z.of_nat 1) with 10 in Hu. simpl.
    destruct (u <? 10) eqn:E; [reflexivity|]. apply Z.ltb_ge in E. lia.
  - change (strconv.formatDec (S (S (S fuel))) u acc)
      with (if u <? 10 then String (strconv.digitChar u) acc
            else strconv.formatDec (S (S fuel)) (u / 10)
                   (String (strconv.digitChar (u mod 10)) acc)).
    change (strconv.formatDec (S (S fuel)) u acc)
      with (if u <? 10 then String (strconv.digitChar u) acc
            else strconv.formatDec (S fuel) (u / 10)
                   (String (strconv.digitChar (u mod 10)) acc)).
    destruct (u <? 10); [reflexivity|]. apply IH.
    rewrite (Nat2Z.inj_succ (S fuel)), Z.pow_succ_r in Hu by lia.
    split; [apply Z.div_pos; lia|]. apply Z.div_lt_upper_bound; lia.
Qed.

Lemma FormatUint_fuel (v : Z) (extra : nat) :
  0 <= v < 2 ^ 64 -> strconv.formatDec (20 + extra) v "" = strconv.FormatUint v 10.
Proof.
  intros Hv. unfold strconv.FormatUint. induction extra as [|extra IH].
  - reflexivity.
  - rewrite <- IH. replace (20 + S extra)%nat with (S (S (19 + extra))) by lia.
    replace (20 + extra)%nat with (S (19 + extra)) by lia.
    apply formatDec_fuel. split; [lia|].
    apply Z.lt_le_trans with (10 ^ 20).
    + change (2 ^ 64) with 18446744073709551616 in Hv.
      change (10 ^ 20) with 100000000000000000000. lia.
    + apply Z.pow_le_mono_r; lia.
Qed.

Lemma leadingInt_length s : forall x v r,
  time.leadingInt s x = Some (v, r) -> (String.length r <= String.length s)%nat.
Proof.
  induction s as [|c s IH]; intros x v r Hl; simpl in Hl.
  - injection Hl as _ <-. simpl. lia.
  - destruct (negb (isDigit (byte c))); [injection Hl as _ <-; simpl; lia|].
    destruct (2 ^ 63 / 10 <? x); [discriminate|].
    destruct (2 ^ 63 <? _); [discriminate|].
    apply IH in Hl. simpl. lia.
Qed.

Lemma leadingFraction_length s : forall x sc o f sc' r,
  time.leadingFraction s x sc o = (f, sc', r) -> (String.length r <= String.length s)%nat.
Proof.
  induction s as [|c s IH]; intros x sc o f sc' r Hl; simpl in Hl.
  - injection Hl as _ _ <-. simpl. lia.
  - destruct (negb (isDigit (byte c))); [injection Hl as _ _ <-; simpl; lia|].
    destruct o; [apply IH in Hl; simpl; lia|].
    destruct ((2 ^ 63 - 1) / 10 <? x); [apply IH in Hl; simpl; lia|].
    destruct (2 ^ 63 <? _); apply IH in Hl; simpl; lia.
Qed.

Lemma spanUnit_length s : forall u r,
  time.spanUnit s = (u, r) -> String.length s = (String.length u + String.length r)%nat.
Proof.
  induction s as [|c s IH]; intros u r Hl; simpl in Hl.
  - injection Hl as <- <-. reflexivity.
  - destruct ((byte c =? 46) || isDigit (byte c)); [injection Hl as <- <-; reflexivity|].
    destruct (time.spanUnit s) as [u' r'] eqn:E. injection Hl as <- <-.
    simpl. rewrite (IH _ _ eq_refl). reflexivity.
Qed.

Lemma fraction_part_length (s1 s2 : string) (f : Z) (scale : float64.t) (post : bool) :
  match s1 with
  | String c s1' =>
    if byte c =? 46 then
      let '(f, scale, r) := time.leadingFraction s1' 0 (float64.ofUint 1) false in
      (f, scale, r, negb (String.length s1' =? String.length r)%nat)
    else (0, float64.ofUint 1, s1, false)
  | EmptyString => (0, float64.ofUint 1, s1, false)
  end = (f, scale, s2, post) ->
  (String.length s2 <= String.length s1)%nat.
Proof.
  destruct s1 as [|c s1']; [intros [= _ _ <- _]; simpl; lia|].
  destruct (byte c =? 46); [|intros [= _ _ <- _]; simpl; lia].
  destruct (time.leadingFraction s1' 0 (float64.ofUint 1) false) as [[f' sc'] r] eqn:E.
  intros [= _ _ <- _]. apply leadingFraction_length in E. simpl. lia.
Qed.

(** [ParseDuration]'s loop never runs out of fuel: every pass consumes at
    least one byte, so any fuel from [length s] up gives the same result. *)
Lemma parseDurationLoop_fuel (fuel1 : nat) : forall (fuel2 : nat) (orig s : string) (d : Z),
  (String.length s <= fuel1)%nat -> (String.length s <= fuel2)%nat ->
  time.parseDurationLoop fuel1 orig s d = time.parseDurationLoop fuel2 orig s d.
Proof.
  induction fuel1 as [|fuel1 IH]; intros fuel2 orig s d H1 H2.
  - destruct s; [|simpl in H1; lia]. destruct fuel2; reflexivity.
  - destruct s as [|c0 s0]; [destruct fuel2; reflexivity|].
    destruct fuel2 as [|fuel2]; [simpl in H2; lia|].
    cbn [time.parseDurationLoop].
    destruct (negb ((byte c0 =? 46) || isDigit (byte c0))); [reflexivity|].
    destruct (time.leadingInt (String c0 s0) 0) as [[v s1]|] eqn:E1; [|reflexivity].
    apply leadingInt_length in E1.
    match goal with
    | |- context [match ?x with (_, _) => _ end] =>
      lazymatch x with
      | match s1 with _ => _ end => destruct x as [[[f scale] s2] post] eqn:E2
      end
    end.
    apply fraction_part_length in E2.
    destruct (negb (negb (String.length (String c0 s0) =? String.length s1)%nat) && negb post);
      [reflexivity|].
    destruct (time.spanUnit s2) as [u s3] eqn:E3. apply spanUnit_length in E3.
    destruct (bool_decide (u = "")) eqn:Eu; [reflexivity|].
    apply bool_decide_eq_false in Eu.
    assert (1 <= String.length u)%nat by (destruct u; [congruence|simpl; lia]).
    destruct (time.unitMap u) as [unit|]; [|reflexivity].
    repeat match goal with
    | |- (if ?b then _ else _) = _ => destruct b; [reflexivity|]
    end.
    apply IH; simpl in *; lia.
Qed.

Lemma ParseDuration_fuel (s : string) (extra : nat) :
  time.parseDurationLoop (String.length s + extra) s s 0
  = time.parseDurationLoop (String.length s) s s 0.
Proof. apply parseDurationLoop_fuel; lia. Qed.

(** ** strconv.ParseUint and strconv.ParseInt at base 10 *)

Lemma isDigit_range b : isDigit b = true <-> 48 <= b <= 57.
Proof. unfold isDigit. rewrite andb_true_iff, !Z.leb_le. tauto. Qed.

Lemma decAcc_mono s : forall n, 0 <= n -> allDigits s = true -> n <= decAcc n s.
Proof.
  induction s as [|c s IH]; intros n Hn Hd; simpl in *; [lia|].
  apply andb_true_iff in Hd as [Hc Hs]. apply isDigit_range in Hc.
  specialize (IH (n * 10 + (byte c - 48)) ltac:(lia) Hs). lia.
Qed.

Lemma cutoff10_eq : cutoff10 = 1844674407370955162.
Proof. reflexivity. Qed.
Lemma maxUint64_eq : strconv.maxUint64 = 18446744073709551615.
Proof. reflexivity. Qed.
Lemma wrap64_small z : 0 <= z < 18446744073709551616 -> strconv.wrap64 z = z.
Proof. intros. unfold strconv.wrap64. apply Z.mod_small. change (2 ^ 64) with 18446744073709551616. lia. Qed.
Lemma wrap64_over z : 18446744073709551616 <= z < 2 * 18446744073709551616 ->
  strconv.wrap64 z = z - 18446744073709551616.
Proof.
  intros. unfold strconv.wrap64. change (2 ^ 64) with 18446744073709551616.
  symmetry. apply (Z.mod_unique_pos _ _ 1); lia.
Qed.

(** A run of digits whose value fits is accepted with that value. *)
Lemma loop_accepts s : forall u n maxVal,
  0 <= n -> maxVal <= strconv.maxUint64 ->
  allDigits s = true -> decAcc n s <= maxVal ->
  strconv.parseUintLoop false 10 cutoff10 maxVal s u n = (decAcc n s, None, u).
Proof.
  induction s as [|c s IH]; intros u n maxVal Hn Hmax Hd Hv; simpl in *; [reflexivity|].
  apply andb_true_iff in Hd as [Hc Hs]. rewrite andb_false_r, Hc.
  pose proof Hc as Hc'. apply isDigit_range in Hc'.
  assert (Hm := decAcc_mono s (n * 10 + (byte c - 48)) ltac:(lia) Hs).
  pose proof cutoff10_eq as Hcut. pose proof maxUint64_eq as HM.
  destruct (10 <=? byte c - 48) eqn:E1; [apply Z.leb_le in E1; lia|].
  destruct (cutoff10 <=? n) eqn:E2; [apply Z.leb_le in E2; lia|].
  rewrite (wrap64_small (n * 10)) by lia.
  rewrite (wrap64_small (n * 10 + _)) by lia.
  destruct (n * 10 + (byte c - 48) <? n * 10) eqn:E3; [apply Z.ltb_lt in E3; lia|].
  destruct (maxVal <? n * 10 + (byte c - 48)) eqn:E4; [apply Z.ltb_lt in E4; lia|].
  simpl. apply IH; auto; lia.
Qed.

(** Conversely, an accepted input is a run of digits whose value fits. *)
Lemma loop_inv s : forall u n maxVal v u',
  0 <= n <= maxVal -> maxVal <= strconv.maxUint64 ->
  strconv.parseUintLoop false 10 cutoff10 maxVal s u n = (v, None, u') ->
  allDigits s = true /\ decAcc n s <= maxVal /\ v = decAcc n s /\ u' = u.
Proof.
  induction s as [|c s IH]; intros u n maxVal v u' Hn Hmax Hl; simpl in *.
  - inversion Hl; subst. repeat split; lia.
  - rewrite andb_false_r in Hl.
    pose proof (byte_range c) as Hb.
    pose proof cutoff10_eq as Hcut. pose proof maxUint64_eq as HM.
    destruct (isDigit (byte c)) eqn:Hc.
    + pose proof Hc as Hc'. apply isDigit_range in Hc'.
      destruct (10 <=? byte c - 48) eqn:E1; [discriminate|].
      destruct (cutoff10 <=? n) eqn:E2; [discriminate|].
      apply Z.leb_gt in E2.
      rewrite (wrap64_small (n * 10)) in Hl by lia.
      destruct (Z_lt_le_dec (n * 10 + (byte c - 48)) 18446744073709551616) as [Hlt|Hge].
      * rewrite (wrap64_small (n * 10 + _)) in Hl by lia.
        destruct (n * 10 + (byte c - 48) <? n * 10) eqn:E3; [discriminate|].
        destruct (maxVal <? n * 10 + (byte c - 48)) eqn:E4; [discriminate|].
        apply Z.ltb_ge in E4. simpl in Hl.
        apply IH in Hl; [|lia|lia]. destruct Hl as (Hd & Hv & -> & ->). auto.
      * rewrite (wrap64_over (n * 10 + _)) in Hl by lia.
        destruct (n * 10 + (byte c - 48) - 18446744073709551616 <? n * 10) eqn:E3;
          [discriminate|]. apply Z.ltb_ge in E3. lia.
    + destruct ((97 <=? lower (byte c)) && (lower (byte c) <=? 122)) eqn:E0; [|discriminate].
      apply andb_true_iff in E0 as [E0 _]. apply Z.leb_le in E0.
      destruct (10 <=? lower (byte c) - 97 + 10) eqn:E1; [discriminate|].
      apply Z.leb_gt in E1. lia.
Qed.

(** On a non-empty input, [ParseUint] at base 10 is its digit loop. *)
Lemma ParseUint_loop s bitSize c0 rest :
  s = String c0 rest -> 0 < bitSize <= 64 ->
  strconv.ParseUint s 10 bitSize =
    match strconv.parseUintLoop false 10 cutoff10 (2 ^ bitSize - 1) s false 0 with
    | (v, Some e, _) => (v, Some (NumError "ParseUint" s e))
    | (v, None, _) => (v, None)
    end.
Proof.
  intros -> Hb. unfold strconv.ParseUint.
  change ((2 <=? 10) && (10 <=? 36)) with true. cbv iota.
  destruct (bitSize <? 0) eqn:E1; [apply Z.ltb_lt in E1; lia|].
  destruct (64 <? bitSize) eqn:E2; [apply Z.ltb_lt in E2; lia|].
  destruct (bitSize =? 0) eqn:E3; [apply Z.eqb_eq in E3; lia|].
  cbv beta iota zeta. simpl orb. cbv iota.
  change (10 =? 0) with false. fold cutoff10.
  destruct (strconv.parseUintLoop false 10 cutoff10 (2 ^ bitSize - 1) (String c0 rest) false 0)
    as [[v [e|]] u] eqn:El; [reflexivity|].
  apply loop_inv in El as (_ & _ & _ & ->).
  - reflexivity.
  - split; [lia|]. pose proof (Z.pow_pos_nonneg 2 bitSize); lia.
  - rewrite maxUint64_eq.
    assert (2 ^ bitSize <= 2 ^ 64) by (apply Z.pow_le_mono_r; lia).
    change (2 ^ 64) with 18446744073709551616 in *. lia.
Qed.

Lemma ParseUint_accepts s bitSize v :
  0 < bitSize <= 64 -> uintLit s = Some v -> v <= 2 ^ bitSize - 1 ->
  strconv.ParseUint s 10 bitSize = (v, None).
Proof.
  intros Hb Hl Hv. destruct s as [|c0 rest]; [discriminate|].
  unfold uintLit in Hl. destruct (allDigits (String c0 rest)) eqn:Hd; [|discriminate].
  injection Hl as <-.
  rewrite (ParseUint_loop _ _ c0 rest eq_refl Hb).
  rewrite loop_accepts; auto; try lia.
  rewrite maxUint64_eq.
  assert (2 ^ bitSize <= 2 ^ 64) by (apply Z.pow_le_mono_r; lia).
  change (2 ^ 64) with 18446744073709551616 in *. lia.
Qed.

Lemma ParseUint_rejects s bitSize :
  0 < bitSize <= 64 ->
  (forall v, uintLit s = Some v -> 2 ^ bitSize - 1 < v) ->
  exists v k, strconv.ParseUint s 10 bitSize = (v, Some (NumError "ParseUint" s k)).
Proof.
  intros Hb Hno. destruct s as [|c0 rest]; [simpl; eauto|].
  rewrite (ParseUint_loop _ _ c0 rest eq_refl Hb).
  destruct (strconv.parseUintLoop false 10 cutoff10 (2 ^ bitSize - 1) (String c0 rest) false 0)
    as [[v [e|]] u] eqn:El; [eauto|].
  apply loop_inv in El as (Hd & Hv & _ & _).
  - specialize (Hno (decAcc 0 (String c0 rest))). unfold uintLit in Hno.
    rewrite Hd in Hno. specialize (Hno eq_refl). lia.
  - split; [lia|]. pose proof (Z.pow_pos_nonneg 2 bitSize); lia.
  - rewrite maxUint64_eq.
    assert (2 ^ bitSize <= 2 ^ 64) by (apply Z.pow_le_mono_r; lia).
    change (2 ^ 64) with 18446744073709551616 in *. lia.
Qed.

(** A range error comes with the largest value of the width. *)
Lemma loop_err s : forall u n maxVal v k u',
  strconv.parseUintLoop false 10 cutoff10 maxVal s u n = (v, Some k, u') ->
  k = ErrSyntax \/ (k = ErrRange /\ v = maxVal).
Proof.
  induction s as [|c s IH]; intros u n maxVal v k u' Hl; simpl in Hl; [discriminate|].
  rewrite andb_false_r in Hl.
  repeat match type of Hl with
  | (if ?b then _ else _) = _ => destruct b
  | match (if ?b then _ else _) with _ => _ end = _ => destruct b
  end; try (inversion Hl; subst; auto; fail); eauto.
Qed.

(** What [ParseUint] does at base 10, as one case split. *)
Lemma ParseUint_cases s bitSize :
  0 < bitSize <= 64 ->
  (exists v, uintLit s = Some v /\ v <= 2 ^ bitSize - 1 /\
             strconv.ParseUint s 10 bitSize = (v, None))
  \/ ((forall v, uintLit s = Some v -> 2 ^ bitSize - 1 < v) /\
      ((exists v, strconv.ParseUint s 10 bitSize = (v, Some (NumError "ParseUint" s ErrSyntax)))
       \/ strconv.ParseUint s 10 bitSize
          = (2 ^ bitSize - 1, Some (NumError "ParseUint" s ErrRange)))).
Proof.
  intros Hb.
  assert (HM : 2 ^ bitSize - 1 <= strconv.maxUint64).
  { rewrite maxUint64_eq.
    assert (2 ^ bitSize <= 2 ^ 64) by (apply Z.pow_le_mono_r; lia).
    change (2 ^ 64) with 18446744073709551616 in *. lia. }
  assert (H0 : 0 <= 0 <= 2 ^ bitSize - 1).
  { pose proof (Z.pow_pos_nonneg 2 bitSize); lia. }
  destruct s as [|c0 rest].
  { right. split; [discriminate|]. left. simpl. eauto. }
  rewrite (ParseUint_loop _ _ c0 rest eq_refl Hb).
  destruct (strconv.parseUintLoop false 10 cutoff10 (2 ^ bitSize - 1) (String c0 rest) false 0)
    as [[v [e|]] u] eqn:El.
  - right. split.
    + intros v' Hl. unfold uintLit in Hl.
      destruct (allDigits (String c0 rest)) eqn:Hd; [|discriminate]. injection Hl as <-.
      destruct (Z_le_gt_dec (decAcc 0 (String c0 rest)) (2 ^ bitSize - 1)) as [Hle|Hgt]; [|apply Z.gt_lt; exact Hgt].
      rewrite loop_accepts in El by (auto; lia). discriminate.
    + apply loop_err in El as [->|[-> ->]]; eauto.
  - left. apply loop_inv in El as (Hd & Hv & -> & _); auto.
    exists (decAcc 0 (String c0 rest)). unfold uintLit. rewrite Hd. auto.
Qed.

Lemma uintLit_nonneg s v : uintLit s = Some v -> 0 <= v.
Proof.
  destruct s as [|c r]; [discriminate|]. unfold uintLit.
  destruct (allDigits (String c r)) eqn:Hd; [|discriminate]. intros [= <-].
  apply (decAcc_mono (String c r) 0); auto; lia.
Qed.

(** What [ParseInt] does at base 10, as one case split. *)
Lemma ParseInt_cases s bitSize :
  1 < bitSize <= 64 ->
  (exists v, intLit s = Some v /\ - 2 ^ (bitSize - 1) <= v <= 2 ^ (bitSize - 1) - 1 /\
             strconv.ParseInt s 10 bitSize = (v, None))
  \/ ((forall v, intLit s = Some v -> ~ (- 2 ^ (bitSize - 1) <= v <= 2 ^ (bitSize - 1) - 1)) /\
      exists v k, strconv.ParseInt s 10 bitSize = (v, Some (NumError "ParseInt" s k))).
Proof.
  intros Hb1. assert (Hb : 0 < bitSize <= 64) by lia.
  assert (Hpow : 2 ^ bitSize = 2 * 2 ^ (bitSize - 1)).
  { replace bitSize with (Z.succ (bitSize - 1)) at 1 by lia. apply Z.pow_succ_r. lia. }
  assert (Hpos : 0 < 2 ^ (bitSize - 1)) by (apply Z.pow_pos_nonneg; lia).
  destruct s as [|c rest]; [right; split; [discriminate|simpl; eauto]|].
  unfold strconv.ParseInt, intLit.
  set (body := if byte c =? 43 then rest else if byte c =? 45 then rest else String c rest).
  set (neg := if byte c =? 43 then false else byte c =? 45).
  assert (Hsplit : (if byte c =? 43 then (false, rest)
                    else if byte c =? 45 then (true, rest) else (false, String c rest))
                   = (neg, body)).
  { subst neg body. destruct (byte c =? 43); [reflexivity|]. destruct (byte c =? 45); reflexivity. }
  rewrite Hsplit.
  assert (Hlit : (if byte c =? 43 then uintLit rest
                  else if byte c =? 45 then Z.opp <$> uintLit rest else uintLit (String c rest))
                 = (if neg then Z.opp <$> uintLit body else uintLit body)).
  { subst neg body. destruct (byte c =? 43); [reflexivity|]. destruct (byte c =? 45); reflexivity. }
  rewrite Hlit. clearbody neg body. clear Hsplit Hlit.
  destruct (bitSize =? 0) eqn:E0; [apply Z.eqb_eq in E0; lia|].
  destruct (ParseUint_cases body bitSize Hb) as [(u & Hu & Hle & ->)|(Hno & [[u ->]| ->])].
  - pose proof (uintLit_nonneg _ _ Hu) as Hu0. rewrite Hu. simpl fmap.
    destruct neg; simpl negb; simpl andb.
    + destruct (2 ^ (bitSize - 1) <? u) eqn:E1.
      * apply Z.ltb_lt in E1. right. split; [|eauto].
        intros v [= <-]. lia.
      * apply Z.ltb_ge in E1. left. exists (- u). repeat split; auto; lia.
    + destruct (2 ^ (bitSize - 1) <=? u) eqn:E1.
      * apply Z.leb_le in E1. right. split; [|eauto].
        intros v [= <-]. lia.
      * apply Z.leb_gt in E1. left. exists u. repeat split; auto; lia.
  - right. split; [|eauto].
    intros v Hv. destruct (uintLit body) as [u'|] eqn:Hu; [|destruct neg; discriminate].
    specialize (Hno _ eq_refl). pose proof (uintLit_nonneg _ _ Hu).
    destruct neg; injection Hv as <-; lia.
  - right. split.
    + intros v Hv. destruct (uintLit body) as [u'|] eqn:Hu; [|destruct neg; discriminate].
      specialize (Hno _ eq_refl). pose proof (uintLit_nonneg _ _ Hu).
      destruct neg; injection Hv as <-; lia.
    + destruct neg; simpl negb; simpl andb.
      * destruct (2 ^ (bitSize - 1) <? 2 ^ bitSize - 1) eqn:E1; [eauto|].
        apply Z.ltb_ge in E1.
        assert (2 <= 2 ^ (bitSize - 1)).
        { change 2 with (2 ^ 1) at 1. apply Z.pow_le_mono_r; lia. }
        lia.
      * destruct (2 ^ (bitSize - 1) <=? 2 ^ bitSize - 1) eqn:E1; [eauto|].
        apply Z.leb_gt in E1. lia.
Qed.

(** ** genericValue: what Set and String do *)

Section Scalars.
Context `{FloatConv}.
Import genericValue.

(** [String] never reaches a case of its switch: the scrutinee is the
    pointer. *)
Lemma String_always_empty (b : t) (h : heap) : genericValue.String_ b h = "".
Proof. reflexivity. Qed.

Lemma uint_small v : 0 <= v <= 2 ^ 64 - 1 -> uint v = v.
Proof. intros. unfold uint. apply Z.mod_small. unfold strconv.IntSize. lia. Qed.

Lemma int_small v : - 2 ^ 63 <= v <= 2 ^ 63 - 1 -> int v = v.
Proof.
  intros. unfold int, strconv.IntSize. change (64 - 1) with 63.
  rewrite Z.mod_small; [lia|]. change (2 ^ 64) with (2 * 2 ^ 63). lia.
Qed.

(** A [uint64] box: a literal in range makes [Set] panic (the value is boxed
    as a [uint] and asserted to be a [uint64]); any other literal is a
    conversion error that carries it, and the variable is left alone. *)
Lemma Set_uint64_cases (b : t) (s : string) (h : heap) (cur : Z) :
  T b = TUint64 -> h !! p b = Some (CVar (VUint64 cur)) ->
  (exists v, uintLit s = Some v /\ v <= 2 ^ 64 - 1 /\ Set_ b s h = Panic badAssert)
  \/ ((forall v, uintLit s = Some v -> 2 ^ 64 - 1 < v)
      /\ exists k, Set_ b s h = Ret (Some (NumError "ParseUint" s k)) h).
Proof.
  intros HT Hp. unfold Set_. rewrite Hp.
  destruct (ParseUint_cases s 64 ltac:(lia)) as [(v & Hl & Hle & ->)|(Hno & [[v ->]| ->])].
  - left. exists v. repeat split; auto.
    unfold assignAsT. rewrite HT. simpl. reflexivity.
  - right. split; eauto.
  - right. split; eauto.
Qed.

(** A [uint] box accepts exactly the literals that fit 32 bits. *)
Lemma Set_uint_cases (b : t) (s : string) (h : heap) (cur : Z) :
  T b = TUint -> h !! p b = Some (CVar (VUint cur)) ->
  (exists v, uintLit s = Some v /\ v <= 2 ^ 32 - 1
             /\ Set_ b s h = Ret None (<[p b := CVar (VUint v)]> h))
  \/ ((forall v, uintLit s = Some v -> 2 ^ 32 - 1 < v)
      /\ exists k, Set_ b s h = Ret (Some (NumError "ParseUint" s k)) h).
Proof.
  intros HT Hp. unfold Set_. rewrite Hp.
  destruct (ParseUint_cases s 32 ltac:(lia)) as [(v & Hl & Hle & ->)|(Hno & [[v ->]| ->])].
  - left. exists v. repeat split; auto.
    unfold assignAsT. rewrite HT. simpl. unfold assign. rewrite Hp.
    pose proof (uintLit_nonneg _ _ Hl). rewrite uint_small by lia. reflexivity.
  - right. split; eauto.
  - right. split; eauto.
Qed.

(** An [int] box accepts exactly the literals that fit 32 bits. *)
Lemma Set_int_cases (b : t) (s : string) (h : heap) (cur : Z) :
  T b = TInt -> h !! p b = Some (CVar (VInt cur)) ->
  (exists v, intLit s = Some v /\ - 2 ^ 31 <= v <= 2 ^ 31 - 1
             /\ Set_ b s h = Ret None (<[p b := CVar (VInt v)]> h))
  \/ ((forall v, intLit s = Some v -> ~ (- 2 ^ 31 <= v <= 2 ^ 31 - 1))
      /\ exists k, Set_ b s h = Ret (Some (NumError "ParseInt" s k)) h).
Proof.
  intros HT Hp. unfold Set_. rewrite Hp.
  destruct (ParseInt_cases s 32 ltac:(lia)) as [(v & Hl & Hle & ->)|(Hno & (v & k & ->))].
  - left. exists v. change (32 - 1) with 31 in Hle. repeat split; auto; try lia.
    unfold assignAsT. rewrite HT. simpl. unfold assign. rewrite Hp.
    rewrite int_small by lia. reflexivity.
  - right. split; eauto.
Qed.

(** An [int64] box accepts exactly the literals that fit 64 bits. *)
Lemma Set_int64_cases (b : t) (s : string) (h : heap) (cur : Z) :
  T b = TInt64 -> h !! p b = Some (CVar (VInt64 cur)) ->
  (exists v, intLit s = Some v /\ - 2 ^ 63 <= v <= 2 ^ 63 - 1
             /\ Set_ b s h = Ret None (<[p b := CVar (VInt64 v)]> h))
  \/ ((forall v, intLit s = Some v -> ~ (- 2 ^ 63 <= v <= 2 ^ 63 - 1))
      /\ exists k, Set_ b s h = Ret (Some (NumError "ParseInt" s k)) h).
Proof.
  intros HT Hp. unfold Set_. rewrite Hp.
  destruct (ParseInt_cases s 64 ltac:(lia)) as [(v & Hl & Hle & ->)|(Hno & (v & k & ->))].
  - left. exists v. change (64 - 1) with 63 in Hle. repeat split; auto; try lia.
    unfold assignAsT. rewrite HT. simpl. unfold assign. rewrite Hp. reflexivity.
  - right. split; eauto.
Qed.

(** C1 (the code departs from the claim).  The round trip fails: on a
    [time.Duration] flag, [Set("1s")] stores one second, whose canonical
    string is ["1s"], and [String] then renders the empty string. *)
Theorem String_does_not_round_trip :
  exists fb h1 h2,
    Duration 1 "foo" 0 "" (oneVar (VDuration 0)) = Ret fb h1
    /\ Value_Set (Flag.Value (flag fb)) "1s" h1 = Ret None h2
    /\ h2 !! 1%positive = Some (CVar (VDuration time.Second))
    /\ time.String_ time.Second = "1s"
    /\ match Flag.Value (flag fb) with
       | ValGeneric b => genericValue.String_ b h2 = ""
       | _ => False
       end.
Proof.
  eexists _, _, _. split; [vm_compute; reflexivity|].
  split; [vm_compute; reflexivity|].
  split; [vm_compute; reflexivity|].
  split; [vm_compute; reflexivity|]. reflexivity.
Qed.

(** C2 (the code departs from the claim).  On a [uint64] flag the valid
    literal ["1"] makes [Set] panic instead of returning nil. *)
Theorem uint64_Set_panics_on_valid_literal :
  exists fb h1,
    Uint64 1 "foo" 0 "" (oneVar (VUint64 0)) = Ret fb h1
    /\ uintLit "1" = Some 1
    /\ Value_Set (Flag.Value (flag fb)) "1" h1 = Panic badAssert.
Proof.
  eexists _, _. split; [vm_compute; reflexivity|].
  split; vm_compute; reflexivity.
Qed.

(** C3 (the code departs from the claim).  On this 64-bit platform an [int]
    flag rejects 2147483648 and a [uint] flag rejects 4294967296 with a range
    error, although both fit the type's 64 bits. *)
Theorem int_and_uint_Set_accept_32_bits_only :
  exists fi hi fu hu,
    Int 1 "foo" 0 "" (oneVar (VInt 0)) = Ret fi hi
    /\ intLit "2147483648" = Some 2147483648
    /\ - 2 ^ (strconv.IntSize - 1) <= 2147483648 <= 2 ^ (strconv.IntSize - 1) - 1
    /\ Value_Set (Flag.Value (flag fi)) "2147483648" hi
       = Ret (Some (NumError "ParseInt" "2147483648" ErrRange)) hi
    /\ Uint 1 "foo" 0 "" (oneVar (VUint 0)) = Ret fu hu
    /\ uintLit "4294967296" = Some 4294967296
    /\ 4294967296 <= 2 ^ strconv.IntSize - 1
    /\ Value_Set (Flag.Value (flag fu)) "4294967296" hu
       = Ret (Some (NumError "ParseUint" "4294967296" ErrRange)) hu.
Proof.
  eexists _, _, _, _. split; [vm_compute; reflexivity|].
  split; [vm_compute; reflexivity|].
  split; [vm_compute; split; discriminate|].
  split; [vm_compute; reflexivity|].
  split; [vm_compute; reflexivity|].
  split; [vm_compute; reflexivity|].
  split; [vm_compute; discriminate|].
  vm_compute; reflexivity.
Qed.

End Scalars.

(** ** genericSliceValue: accumulation *)

Section Slices.
Import genericSliceValue.

(** [*p = c] on a valid pointer, and on a dangling one. *)
Lemma assign_Some (p : loc) (c : cell) (h : heap) :
  is_Some (h !! p) -> assign p c h = Some (<[p := c]> h).
Proof. intros [x Hx]. unfold assign. rewrite Hx. reflexivity. Qed.

Lemma assign_None (p : loc) (c : cell) (h : heap) :
  h !! p = None -> assign p c h = None.
Proof. intros Hx. unfold assign. rewrite Hx. reflexivity. Qed.

(** What [newGenericSlice] returns on a valid pointer. *)
Lemma newGenericSlice_ok (T : GoType) (val : list scalar) (p : loc) (h : heap) :
  is_Some (h !! p) ->
  exists a,
    newGenericSlice T val p h
      = Ret (genericSliceValue.mk T p a) (<[a := CVar (VBool false)]> (<[p := CSlice T val]> h))
    /\ a <> p /\ h !! a = None.
Proof.
  intros Hp. unfold newGenericSlice. rewrite (assign_Some _ _ _ Hp).
  set (h' := <[p := CSlice T val]> h).
  exists (fresh (dom h')). split; [reflexivity|].
  pose proof (is_fresh (dom h')) as Hf.
  rewrite elem_of_dom in Hf.
  split.
  - intros E. apply Hf. rewrite E. subst h'. rewrite lookup_insert_eq. eauto.
  - destruct (h !! fresh (dom h')) eqn:E; [|reflexivity].
    exfalso. apply Hf. subst h'.
    destruct (decide (p = fresh (dom (<[p:=CSlice T val]> h)))) as [Heq|Hne].
    + rewrite <- Heq at 1. rewrite lookup_insert_eq. eauto.
    + rewrite lookup_insert_ne by exact Hne. rewrite E. eauto.
Qed.

(** The first call: the destination becomes [[s]], whatever it held. *)
Lemma Set_first (b : t) (s : string) (h : heap) :
  T b = TString -> self b <> p b ->
  h !! self b = Some (CVar (VBool false)) -> is_Some (h !! p b) ->
  Set_ b s h
  = Ret None (<[p b := CSlice TString [VString s]]>
               (<[self b := CVar (VBool true)]> (<[p b := CSlice TString []]> h))).
Proof.
  intros HT Hne Hhot Hp. unfold Set_, hot. rewrite Hhot.
  rewrite (assign_Some _ _ _ Hp).
  rewrite lookup_insert_ne by exact Hne. rewrite lookup_insert_eq.
  rewrite HT. simpl. reflexivity.
Qed.

(** Every later call appends at the end. *)
Lemma Set_hot (b : t) (s : string) (h : heap) (T' : GoType) (xs : list scalar) :
  T b = TString ->
  h !! self b = Some (CVar (VBool true)) -> h !! p b = Some (CSlice T' xs) ->
  Set_ b s h = Ret None (<[p b := CSlice TString (xs ++ [VString s])]> h).
Proof.
  intros HT Hhot Hp. unfold Set_, hot. rewrite Hhot, Hp, HT. reflexivity.
Qed.

(** With any other element type the assertion [any(s).(T)] panics. *)
Lemma Set_not_string (b : t) (s : string) (h : heap) (r : option error) (h' : heap) :
  T b <> TString -> Set_ b s h <> Ret r h'.
Proof.
  intros HT. unfold Set_.
  destruct (hot b h) as [[]|]; [| |discriminate].
  - destruct (h !! p b) as [[]|]; try discriminate.
    destruct (decide (typeOf (VString s) = T b)) as [E|E]; [|discriminate].
    simpl in E. congruence.
  - destruct (assign (p b) (CSlice (T b) []) h); [|discriminate].
    match goal with |- context [?m !! p b] => destruct (m !! p b) as [[]|] end; try discriminate.
    destruct (decide (typeOf (VString s) = T b)) as [E|E]; [|discriminate].
    simpl in E. congruence.
Qed.

(** Once [hot], a run of calls appends its literals in order and writes
    nothing but the destination. *)
Lemma setAll_hot (b : t) (ls : list string) : forall (h : heap) (xs : list scalar) (T' : GoType),
  T b = TString -> self b <> p b ->
  h !! self b = Some (CVar (VBool true)) -> h !! p b = Some (CSlice T' xs) ->
  exists h',
    setAll b ls h = Ret None h'
    /\ h' !! self b = Some (CVar (VBool true))
    /\ h' !! p b = Some (CSlice (if ls is [] then T' else TString) (xs ++ (VString <$> ls)))
    /\ forall q, q <> p b -> h' !! q = h !! q.
Proof.
  induction ls as [|l ls IH]; intros h xs T' HT Hne Hhot Hp; simpl.
  - exists h. rewrite app_nil_r. auto.
  - rewrite (Set_hot b l h T' xs HT Hhot Hp).
    destruct (IH (<[p b := CSlice TString (xs ++ [VString l])]> h) (xs ++ [VString l])%list TString)
      as (h' & Hrun & Hhot' & Hp' & Hfr); auto.
    + rewrite lookup_insert_ne by auto. exact Hhot.
    + rewrite lookup_insert_eq. reflexivity.
    + exists h'. split; [exact Hrun|]. split; [exact Hhot'|]. split.
      * rewrite Hp'. rewrite <- app_assoc. simpl. destruct ls; reflexivity.
      * intros q Hq. rewrite Hfr by exact Hq. rewrite lookup_insert_ne by auto. reflexivity.
Qed.




(** C4.  A string-collection box (the package's only collection box, built
    by [Strings]) on a valid destination: the first [Set] leaves exactly
    [[l]] in the destination, whatever default [val] it held, and after the
    calls [l :: ls] in order the destination is [l :: ls]. *)
Theorem slice_Set_appends_in_call_order
    (h : heap) (p : loc) (val : list string) (l : string) (ls : list string) :
  is_Some (h !! p) ->
  exists b h1 h2 h3,
    newGenericSlice TString (VString <$> val) p h = Ret b h1
    /\ Get b h1 = Some (VString <$> val)
    /\ Set_ b l h1 = Ret None h2
    /\ Get b h2 = Some [VString l]
    /\ setAll b (l :: ls) h1 = Ret None h3
    /\ Get b h3 = Some (VString <$> l :: ls).
Proof.
  intros Hp.
  destruct (newGenericSlice_ok TString (VString <$> val) p h Hp) as (a & Hnew & Hap & Ha).
  set (b := genericSliceValue.mk TString p a) in *.
  set (h1 := <[a := CVar (VBool false)]> (<[p := CSlice TString (VString <$> val)]> h)) in *.
  assert (Hself : h1 !! self b = Some (CVar (VBool false))).
  { subst h1 b. simpl. apply lookup_insert_eq. }
  assert (Hdest : h1 !! p = Some (CSlice TString (VString <$> val))).
  { subst h1. rewrite lookup_insert_ne by exact Hap. apply lookup_insert_eq. }
  assert (Hfirst := Set_first b l h1 eq_refl Hap Hself (ex_intro _ _ Hdest)).
  set (h2 := <[p := CSlice TString [VString l]]>
               (<[a := CVar (VBool true)]> (<[p := CSlice TString []]> h1))) in *.
  assert (Hself2 : h2 !! self b = Some (CVar (VBool true))).
  { subst h2 b. simpl. rewrite lookup_insert_ne by auto. apply lookup_insert_eq. }
  assert (Hdest2 : h2 !! genericSliceValue.p b = Some (CSlice TString [VString l])).
  { subst h2 b. simpl. apply lookup_insert_eq. }
  destruct (setAll_hot b ls h2 [VString l] TString eq_refl Hap Hself2 Hdest2)
    as (h3 & Hrun & _ & Hp3 & _).
  exists b, h1, h2, h3. split; [exact Hnew|].
  split; [unfold Get; simpl; rewrite Hdest; reflexivity|].
  split; [exact Hfirst|].
  split; [unfold Get; rewrite Hdest2; reflexivity|].
  split; [simpl; rewrite Hfirst; exact Hrun|].
  unfold Get. rewrite Hp3. reflexivity.
Qed.

End Slices.


(** ** Frame: what a [Set] leaves alone *)

Section Frame.
Context `{FloatConv}.

(** Each [Set] writes only through its box's pointers. *)
Lemma assign_frame (p q : loc) (c : cell) (h h' : heap) :
  assign p c h = Some h' -> p <> q -> h' !! q = h !! q.
Proof.
  unfold assign. destruct (h !! p); [|discriminate].
  intros [= <-] Hne. apply lookup_insert_ne. exact Hne.
Qed.

Lemma assignAsT_frame (b : genericValue.t) (v : scalar) (q : loc) (h h' : heap) e :
  genericValue.assignAsT b v h = Ret e h' -> genericValue.p b <> q -> h' !! q = h !! q.
Proof.
  unfold genericValue.assignAsT. destruct (decide _); [|discriminate].
  destruct (assign _ _ _) eqn:E; [|discriminate].
  intros [= _ <-] Hne. eapply assign_frame; eauto.
Qed.

Lemma genericValue_Set_frame (b : genericValue.t) (s : string) (q : loc) (h h' : heap) e :
  genericValue.Set_ b s h = Ret e h' -> genericValue.p b <> q -> h' !! q = h !! q.
Proof.
  unfold genericValue.Set_. intros Hs Hne.
  destruct (h !! genericValue.p b) as [[cur|]|]; try discriminate.
  destruct cur;
    repeat match type of Hs with
    | match ?x with _ => _ end = _ =>
      lazymatch x with
      | genericValue.assignAsT _ _ _ => fail
      | _ => destruct x eqn:?
      end
    end;
    try (injection Hs as _ <-; reflexivity);
    try (eapply assignAsT_frame; eauto; fail).
Qed.

Lemma genericSliceValue_Set_frame (b : genericSliceValue.t) (s : string) (q : loc)
    (h h' : heap) e :
  genericSliceValue.Set_ b s h = Ret e h' ->
  genericSliceValue.p b <> q -> genericSliceValue.self b <> q -> h' !! q = h !! q.
Proof.
  unfold genericSliceValue.Set_. intros Hs Hp Hself.
  destruct (genericSliceValue.hot b h) as [[]|]; try discriminate.
  - destruct (h !! genericSliceValue.p b) as [[]|]; try discriminate.
    destruct (decide _); [|discriminate]. injection Hs as _ <-.
    apply lookup_insert_ne. exact Hp.
  - destruct (assign _ _ h) as [h0|] eqn:Ea; [|discriminate].
    match type of Hs with context [?m !! genericSliceValue.p b] =>
      destruct (m !! genericSliceValue.p b) as [[]|] end; try discriminate.
    destruct (decide _); [|discriminate]. injection Hs as _ <-.
    rewrite lookup_insert_ne by exact Hp. rewrite lookup_insert_ne by exact Hself.
    eapply assign_frame; eauto.
Qed.

Lemma Value_Set_frame (v : Value) (s : string) (q : loc) (h h' : heap) e :
  leaves v q -> Value_Set v s h = Ret e h' -> h' !! q = h !! q.
Proof.
  destruct v as [g|b|f]; simpl; intros Hl Hs.
  - eapply genericValue_Set_frame; eauto.
  - destruct Hl. eapply genericSliceValue_Set_frame; eauto.
  - eapply Hl; eauto.
Qed.

Lemma runCalls_frame (calls : list (Value * string)) (q : loc) : forall (h h' : heap) e,
  Forall (fun c => leaves c.1 q) calls ->
  runCalls calls h = Ret e h' -> h' !! q = h !! q.
Proof.
  induction calls as [|[v s] rest IH]; intros h h' e Hall Hrun; simpl in Hrun.
  - injection Hrun as _ <-. reflexivity.
  - apply Forall_cons in Hall as [Hv Hrest]. simpl in Hv.
    destruct (Value_Set v s h) as [[err|] h1|] eqn:Es; try discriminate.
    + injection Hrun as _ <-. eapply Value_Set_frame; eauto.
    + rewrite (IH _ _ _ Hrest Hrun). eapply Value_Set_frame; eauto.
Qed.

(** C5.  A collection box holds the caller's default [val] after any run
    of [Set] calls on other boxes (boxes that point elsewhere, closures that
    write elsewhere), that is, as long as its own [Set] is not called;
    [hot] is still false then. *)
Theorem default_kept_when_Set_never_called
    (T : GoType) (val : list scalar) (p : loc) (h h1 h2 : heap)
    (b : genericSliceValue.t) (calls : list (Value * string)) (e : option error) :
  genericSliceValue.newGenericSlice T val p h = Ret b h1 ->
  Forall (fun c => leaves c.1 (genericSliceValue.p b)
                   /\ leaves c.1 (genericSliceValue.self b)) calls ->
  runCalls calls h1 = Ret e h2 ->
  genericSliceValue.Get b h2 = Some val /\ genericSliceValue.hot b h2 = Some false.
Proof.
  intros Hnew Hall Hrun.
  assert (Hp : is_Some (h !! p)).
  { unfold genericSliceValue.newGenericSlice, assign in Hnew.
    destruct (h !! p); [eauto|discriminate]. }
  destruct (newGenericSlice_ok T val p h Hp) as (a & Hnew' & Hap & Ha).
  rewrite Hnew' in Hnew. injection Hnew as <- <-. simpl in *.
  unfold genericSliceValue.Get, genericSliceValue.hot. simpl.
  rewrite (runCalls_frame calls p _ _ _ (Forall_impl _ _ _ Hall (fun _ H => proj1 H)) Hrun).
  rewrite (runCalls_frame calls a _ _ _ (Forall_impl _ _ _ Hall (fun _ H => proj2 H)) Hrun).
  rewrite lookup_insert_ne by exact Hap. rewrite !lookup_insert_eq. auto.
Qed.

End Frame.

(** ** The matcher: one literal *)

Section MatcherClaims.
Context `{FloatConv}.
Import Matcher.

(** C6.  With a choices set, a literal outside it fails with an Argument
    Error that names the flag and the literal, whatever the validator and
    the box are and before the box sees it (the variables are untouched);
    and a literal is applied successfully only if it is a member. *)
Theorem choices_checked_on_the_raw_literal
    (f : Flag.t) (cs : list string) (lit : string) (h : heap) :
  Flag.Choices f = Some cs ->
  (lit ∉ cs ->
   applyLiteral f lit h = Ret (Some (ArgumentError (flagName f) lit notAChoice)) h)
  /\ (forall h', applyLiteral f lit h = Ret None h' -> lit ∈ cs).
Proof.
  intros Hcs. unfold applyLiteral, checkChoices. rewrite Hcs. split.
  - intros Hn. rewrite bool_decide_false by exact Hn. reflexivity.
  - intros h' Hr. destruct (bool_decide (lit ∈ cs)) eqn:E.
    + apply bool_decide_eq_true in E. exact E.
    + discriminate.
Qed.

(** C7.  The three checks run in order and the first failure is the
    result: (1) a literal outside the choices fails with the choices error,
    also when the box's [Set] would fail or panic on it; (2) a literal that
    passes the choices and that the validator rejects fails with the
    validator's error, and the variables are untouched: [Set] did not run;
    (3) only a literal that passes both reaches [Set], whose error is
    wrapped. *)
Theorem validation_is_ordered_and_short_circuits (f : Flag.t) (lit : string) (h : heap) :
  (forall cs, Flag.Choices f = Some cs -> lit ∉ cs ->
     applyLiteral f lit h = Ret (Some (ArgumentError (flagName f) lit notAChoice)) h)
  /\ (forall fn e,
        (forall cs, Flag.Choices f = Some cs -> lit ∈ cs) ->
        Flag.Validate f = Some fn -> fn lit = Some e ->
        applyLiteral f lit h = Ret (Some (ArgumentError (flagName f) lit e)) h)
  /\ ((forall cs, Flag.Choices f = Some cs -> lit ∈ cs) ->
      (forall fn, Flag.Validate f = Some fn -> fn lit = None) ->
      applyLiteral f lit h
      = match Value_Set (Flag.Value f) lit h with
        | Ret (Some e) h' => Ret (Some (ArgumentError (flagName f) lit e)) h'
        | r => r
        end).
Proof.
  assert (Hpass : (forall cs, Flag.Choices f = Some cs -> lit ∈ cs) ->
                  checkChoices f lit = None).
  { intros Hin. unfold checkChoices. destruct (Flag.Choices f) as [cs|]; [|reflexivity].
    rewrite bool_decide_true by (apply Hin; reflexivity). reflexivity. }
  split; [|split].
  - intros cs Hcs Hn. unfold applyLiteral, checkChoices. rewrite Hcs.
    rewrite bool_decide_false by exact Hn. reflexivity.
  - intros fn e Hin Hfn He. unfold applyLiteral. rewrite (Hpass Hin).
    unfold checkValidate. rewrite Hfn, He. reflexivity.
  - intros Hin Hval. unfold applyLiteral. rewrite (Hpass Hin).
    unfold checkValidate. destruct (Flag.Validate f) as [fn|]; [|reflexivity].
    rewrite (Hval fn eq_refl). reflexivity.
Qed.

(** ** The matcher: a bare boolean flag *)

Lemma classify_long (name : string) :
  splitEq name = (name, None) -> classify ("--" +:+ name) = TLong name None.
Proof.
  intros Hs. change ("--" +:+ name) with (String "-" (String "-" name)).
  unfold classify. change (byte "-" =? 45) with true. cbv iota beta. simpl andb. cbv iota.
  rewrite Hs. reflexivity.
Qed.

Lemma isHelp_long (name : string) : name <> "help" -> isHelp ("--" +:+ name) = false.
Proof.
  intros Hn. unfold isHelp. apply orb_false_iff. split.
  - apply bool_decide_eq_false. simpl. intros E. discriminate.
  - apply bool_decide_eq_false. intros E.
    change ("--" +:+ name) with (String "-" (String "-" name)) in E.
    injection E as E. exact (Hn E).
Qed.

(** A name of any other length is the long name. *)
Lemma Var_long_name (v : Value) (name usage : string) :
  len name <> 1 ->
  Flag.Name (flag (Var v name usage)) = name /\ Flag.ShortName (flag (Var v name usage)) = ""
  /\ Flag.Value (flag (Var v name usage)) = v
  /\ Flag.Validate (flag (Var v name usage)) = None
  /\ Flag.Choices (flag (Var v name usage)) = None.
Proof.
  intros Hl. unfold Var. destruct (len name =? 1) eqn:E; [apply Z.eqb_eq in E; lia|].
  simpl. auto.
Qed.

(** C8.  For a flag built by [Bool] under a long name, the bare token
    [--name] applies the literal "true": the destination becomes [true],
    and the pass goes on with all of the following tokens. *)
Theorem bare_bool_flag_sets_true_and_keeps_next_token
    (p : loc) (name usage : string) (value : bool) (h h1 : heap) (fb : FlagBuilder)
    (flags : list Flag.t) (rest : list string)
    (counts : gmap string nat) (pos : list string) :
  Bool p name value usage h = Ret fb h1 ->
  len name <> 1 -> name <> "help" -> splitEq name = (name, None) ->
  findFlag flags (TLong name None) = Some (flag fb) ->
  isBoolValue (Flag.Value (flag fb)) = true
  /\ applyLiteral (flag fb) "true" h1 = Ret None (<[p := CVar (VBool true)]> h1)
  /\ parseTokens flags (("--" +:+ name) :: rest) counts pos h1
     = parseTokens flags rest (bump (flag fb) counts) pos (<[p := CVar (VBool true)]> h1).
Proof.
  intros Hb Hlen Hhelp Hsplit Hfind.
  unfold Bool, viaGeneric, genericValue.newGeneric, bind in Hb.
  destruct (assign p (CVar (VBool value)) h) as [h0|] eqn:Ea; [|discriminate].
  injection Hb as <- <-.
  destruct (Var_long_name (ValGeneric (genericValue.mk TBool p true)) name usage Hlen)
    as (Hname & Hshort & Hval & Hvf & Hch).
  simpl typeOf in *.
  set (f := flag (Var (ValGeneric (genericValue.mk TBool p true)) name usage)) in *.
  assert (Hh0 : h0 !! p = Some (CVar (VBool value))).
  { unfold assign in Ea. destruct (h !! p); [|discriminate]. injection Ea as <-.
    apply lookup_insert_eq. }
  assert (Happ : applyLiteral f "true" h0 = Ret None (<[p := CVar (VBool true)]> h0)).
  { unfold applyLiteral, checkChoices, checkValidate. rewrite Hch, Hvf, Hval.
    simpl. unfold genericValue.Set_. simpl. rewrite Hh0.
    change (strconv.ParseBool "true") with (true, @None error).
    cbv iota. unfold genericValue.assignAsT. simpl.
    unfold assign. rewrite Hh0. reflexivity. }
  split; [rewrite Hval; reflexivity|]. split; [exact Happ|].
  cbn [parseTokens]. rewrite (isHelp_long _ Hhelp), (classify_long _ Hsplit), Hfind.
  rewrite Hval. simpl isBoolValue. cbv iota. rewrite Happ. reflexivity.
Qed.

(** ** The matcher's pass and the variables it leaves alone *)

Lemma applyLiteral_frame (f : Flag.t) (lit : string) (q : loc) (h h' : heap) e :
  leaves (Flag.Value f) q -> applyLiteral f lit h = Ret e h' -> h' !! q = h !! q.
Proof.
  intros Hl. unfold applyLiteral.
  destruct (checkChoices f lit); [intros [= _ <-]; reflexivity|].
  destruct (checkValidate f lit); [intros [= _ <-]; reflexivity|].
  destruct (Value_Set (Flag.Value f) lit h) as [[err|] h1|] eqn:Es; intros [= _ <-];
    eapply Value_Set_frame; eauto.
Qed.

Lemma findFlag_In (flags : list Flag.t) (t : token) (f : Flag.t) :
  findFlag flags t = Some f -> In f flags.
Proof.
  destruct t; simpl; intros Hf; try discriminate; apply find_some in Hf; tauto.
Qed.

(** If no token names the flag [fS] and the other flags leave [q] alone,
    the pass leaves [q] alone. *)
Lemma parseTokens_frame (flags : list Flag.t) (fS : Flag.t) (q : loc) :
  (forall f, In f flags -> f = fS \/ leaves (Flag.Value f) q) ->
  forall (toks : list string) (counts : gmap string nat) (pos : list string)
         (h h' : heap) (r : parsed),
    (forall tok, In tok toks -> findFlag flags (classify tok) <> Some fS) ->
    parseTokens flags toks counts pos h = Ret r h' -> h' !! q = h !! q.
Proof.
  intros Hfl toks.
  induction toks as [toks IH] using (induction_ltof1 _ (@List.length string)).
  unfold ltof in IH.
  intros counts pos h h' r Hnot Hrun.
  destruct toks as [|tok rest]; cbn [parseTokens] in Hrun.
  { injection Hrun as _ <-. reflexivity. }
  destruct (isHelp tok); [injection Hrun as _ <-; reflexivity|].
  assert (Hrest : forall t, In t rest -> findFlag flags (classify t) <> Some fS).
  { intros t Ht. apply Hnot. right. exact Ht. }
  pose proof (Hnot tok (or_introl eq_refl)) as Htok.
  assert (Hstep : forall f lit (tl : list string) c,
            findFlag flags (classify tok) = Some f ->
            (List.length tl < List.length (tok :: rest))%nat ->
            (forall t, In t tl -> findFlag flags (classify t) <> Some fS) ->
            match applyLiteral f lit h with
            | Ret None h1 => parseTokens flags tl c pos h1
            | Ret (Some e) h1 => Ret (Failed e) h1
            | Panic msg => Panic msg
            end = Ret r h' -> h' !! q = h !! q).
  { intros f lit tl c Hf Hlen Htl Hm.
    assert (Hlv : leaves (Flag.Value f) q).
    { destruct (Hfl f (findFlag_In _ _ _ Hf)) as [->|Hlv]; [|exact Hlv].
      exfalso. exact (Htok Hf). }
    destruct (applyLiteral f lit h) as [[e|] h1|] eqn:Ea; try discriminate.
    - injection Hm as _ <-. eapply applyLiteral_frame; eauto.
    - rewrite (IH tl Hlen _ _ _ _ _ Htl Hm). eapply applyLiteral_frame; eauto. }
  destruct (classify tok) as [n [v|]|n|s] eqn:Ec.
  - destruct (findFlag flags (TLong n (Some v))) as [f|] eqn:Ef;
      [|injection Hrun as _ <-; reflexivity].
    eapply (Hstep f v rest); eauto; simpl; lia.
  - destruct (findFlag flags (TLong n None)) as [f|] eqn:Ef;
      [|injection Hrun as _ <-; reflexivity].
    destruct (isBoolValue (Flag.Value f)).
    + eapply (Hstep f "true" rest); eauto; simpl; lia.
    + destruct rest as [|v rest']; [injection Hrun as _ <-; reflexivity|].
      eapply (Hstep f v rest'); eauto; try (simpl; lia).
      intros t Ht. apply Hrest. right. exact Ht.
  - destruct (findFlag flags (TShort n)) as [f|] eqn:Ef;
      [|injection Hrun as _ <-; reflexivity].
    destruct (isBoolValue (Flag.Value f)).
    + eapply (Hstep f "true" rest); eauto; simpl; lia.
    + destruct rest as [|v rest']; [injection Hrun as _ <-; reflexivity|].
      eapply (Hstep f v rest'); eauto; try (simpl; lia).
      intros t Ht. apply Hrest. right. exact Ht.
  - eapply (IH rest); eauto; simpl; lia.
Qed.

(** On the matcher: a repeatable flag that no token names still holds the
    caller's default after the pass. *)
Lemma unnamed_repeatable_flag_keeps_default
    (T : GoType) (val : list scalar) (p : loc) (h h1 h2 : heap)
    (b : genericSliceValue.t) (fS : Flag.t) (flags : list Flag.t) (toks : list string)
    (counts : gmap string nat) (pos : list string) (r : parsed) :
  genericSliceValue.newGenericSlice T val p h = Ret b h1 ->
  (forall f, In f flags ->
     f = fS \/ (leaves (Flag.Value f) (genericSliceValue.p b)
                /\ leaves (Flag.Value f) (genericSliceValue.self b))) ->
  (forall tok, In tok toks -> findFlag flags (classify tok) <> Some fS) ->
  parseTokens flags toks counts pos h1 = Ret r h2 ->
  genericSliceValue.Get b h2 = Some val /\ genericSliceValue.hot b h2 = Some false.
Proof.
  intros Hnew Hfl Hnot Hrun.
  assert (Hp : is_Some (h !! p)).
  { unfold genericSliceValue.newGenericSlice, assign in Hnew.
    destruct (h !! p); [eauto|discriminate]. }
  destruct (newGenericSlice_ok T val p h Hp) as (a & Hnew' & Hap & Ha).
  rewrite Hnew' in Hnew. injection Hnew as <- <-. simpl in *.
  unfold genericSliceValue.Get, genericSliceValue.hot. simpl.
  rewrite (parseTokens_frame flags fS p
             (fun f Hf => match Hfl f Hf with
                          | or_introl E => or_introl E
                          | or_intror (conj L _) => or_intror L
                          end) toks _ _ _ _ _ Hnot Hrun).
  rewrite (parseTokens_frame flags fS a
             (fun f Hf => match Hfl f Hf with
                          | or_introl E => or_introl E
                          | or_intror (conj _ L) => or_intror L
                          end) toks _ _ _ _ _ Hnot Hrun).
  rewrite lookup_insert_ne by exact Hap. rewrite !lookup_insert_eq. auto.
Qed.

End MatcherClaims.

(** ** RunWithArgs *)

Section RunClaims.
Variable Command : Type.
Variable Command_Run : Command -> list string -> world -> result world Z.
Variable errorText : error -> string.

(** C9.  When [cmd.Command()] returns an error, [RunWithArgs] returns 1
    after writing the error to the error stream, and the result is the same
    whatever [Command.Run] is: it is not called, so no handler runs.  When
    it returns a command and no error, the result of [RunWithArgs] is the
    result of [c.Run(args)] itself: an exit code that [Run] returns comes
    back unchanged. *)
Theorem RunWithArgs_exit_codes
    (cmd : Commander Command) (args : list string) (w w' : world) (c : Command) :
  (forall err,
     cmd w = Ret (c, Some err) w' ->
     RunWithArgs Command Command_Run errorText cmd args w = Ret 1 (printErr errorText err w')
     /\ forall other : Command -> list string -> world -> result world Z,
          RunWithArgs Command other errorText cmd args w
          = RunWithArgs Command Command_Run errorText cmd args w)
  /\ (cmd w = Ret (c, None) w' ->
      RunWithArgs Command Command_Run errorText cmd args w = Command_Run c args w'
      /\ forall code w'',
           Command_Run c args w' = Ret code w'' ->
           RunWithArgs Command Command_Run errorText cmd args w = Ret code w'').
Proof.
  unfold RunWithArgs, bind. split.
  - intros err ->. split; reflexivity.
  - intros ->. split; [reflexivity|]. intros code w'' ->. reflexivity.
Qed.

End RunClaims.

Section Dispatch.
Context `{FloatConv}.
Variable usageText : Matcher.Command -> string.
Variable errorText : error -> string.

(** With the dispatcher of module [Matcher] as [Command.Run]: when the
    arguments match on a node that has a handler, [RunWithArgs] returns what
    the handler returns on the leftover arguments. *)
Lemma RunWithArgs_returns_handler_code
    (cmd : Commander Matcher.Command) (args toks pos : list string) (w w' : world)
    (c node : Matcher.Command) (counts : gmap string nat) (h' : heap)
    (hd : list string -> world -> result world Z) :
  cmd w = Ret (c, None) w' ->
  Matcher.route c args = (node, toks) ->
  Matcher.parseArgs (Matcher.cmdFlags node) toks (mem w')
  = Ret (Matcher.Matched pos counts) h' ->
  Matcher.cmdHandler node = Some hd ->
  RunWithArgs Matcher.Command (Matcher.Run usageText errorText) errorText cmd args w
  = hd pos {| mem := h'; stdout := stdout w'; stderr := stderr w' |}.
Proof.
  intros Hc Hr Hp Hh. unfold RunWithArgs, bind. rewrite Hc.
  unfold Matcher.Run. rewrite Hr, Hp, Hh. reflexivity.
Qed.

End Dispatch.

(** ** Var and the typed constructors *)

Lemma Var_short_name (v : Value) (name usage : string) :
  len name = 1 ->
  Flag.ShortName (flag (Var v name usage)) = name /\ Flag.Name (flag (Var v name usage)) = "".
Proof.
  intros Hl. unfold Var. rewrite Hl. simpl. auto.
Qed.

Lemma viaGeneric_is_Var (val : scalar) (p : loc) (isbool : bool) (name usage : string)
    (h h' : heap) (fb : FlagBuilder) :
  viaGeneric val p isbool name usage h = Ret fb h' ->
  exists v, fb = Var v name usage.
Proof.
  unfold viaGeneric, bind. destruct (genericValue.newGeneric _ _ _ _); [|discriminate].
  intros [= <- _]. eauto.
Qed.

(** C10.  A name of length one ([len(name) == 1], one byte) becomes the
    short name and the long name is empty: for [Var], for [Func], and for
    every typed constructor that returns a builder. *)
Theorem one_character_name_is_short_only (name usage : string) :
  len name = 1 ->
  (forall v, Flag.ShortName (flag (Var v name usage)) = name
             /\ Flag.Name (flag (Var v name usage)) = "")
  /\ (forall fb fn, Func name usage fn = fb ->
        Flag.ShortName (flag fb) = name /\ Flag.Name (flag fb) = "")
  /\ (forall p h h' fb,
        (exists x, Bool p name x usage h = Ret fb h')
        \/ (exists x, Duration p name x usage h = Ret fb h')
        \/ (exists x, Float64 p name x usage h = Ret fb h')
        \/ (exists x, Int p name x usage h = Ret fb h')
        \/ (exists x, Int64 p name x usage h = Ret fb h')
        \/ (exists x, String_ p name x usage h = Ret fb h')
        \/ (exists x, Strings p name x usage h = Ret fb h')
        \/ (exists x, Uint p name x usage h = Ret fb h')
        \/ (exists x, Uint64 p name x usage h = Ret fb h') ->
        Flag.ShortName (flag fb) = name /\ Flag.Name (flag fb) = "").
Proof.
  intros Hl. split; [intros v; apply Var_short_name; exact Hl|].
  split; [intros fb fn <-; apply Var_short_name; exact Hl|].
  intros p h h' fb Hc.
  destruct Hc as [[x Hc]|[[x Hc]|[[x Hc]|[[x Hc]|[[x Hc]|[[x Hc]|[[x Hc]|[[x Hc]|[x Hc]]]]]]]]];
    try (apply viaGeneric_is_Var in Hc as [v ->]; apply Var_short_name; exact Hl).
  unfold Strings, bind in Hc.
  destruct (genericSliceValue.newGenericSlice _ _ _ _); [|discriminate].
  injection Hc as <- _. simpl. apply Var_short_name. exact Hl.
Qed.

(** ** The tests of flag_test.go, on the model *)

Example TestBool :
  finalVar (runFlag (Bool 1 "foo" false "") ["--foo"] (oneVar (VBool false))) 1
  = Some (CVar (VBool true)).
Proof. vm_compute. reflexivity. Qed.

Example TestDuration :
  finalVar (runFlag (Duration 1 "foo" 0 "") ["--foo=1s"] (oneVar (VDuration 0))) 1
  = Some (CVar (VDuration time.Second)).
Proof. vm_compute. reflexivity. Qed.

Example TestFloat64 :
  finalVar (runFlag (Float64 1 "foo" (S754_zero false) "") ["--foo=1.0"]
              (oneVar (VFloat64 (S754_zero false)))) 1
  = Some (CVar (VFloat64 (float64.ofUint 1))).
Proof. vm_compute. reflexivity. Qed.

Example TestInt64 :
  finalVar (runFlag (Int64 1 "foo" 0 "") ["--foo=1"] (oneVar (VInt64 0))) 1
  = Some (CVar (VInt64 1)).
Proof. vm_compute. reflexivity. Qed.

Example TestString :
  finalVar (runFlag (String_ 1 "foo" "" "") ["--foo=bar"] (oneVar (VString ""))) 1
  = Some (CVar (VString "bar")).
Proof. vm_compute. reflexivity. Qed.

Example TestStringSlice :
  finalVar (runFlag (Strings 1 "foo" [] "") ["--foo"; "baz"; "--foo"; "qux"]
              {[ 1%positive := CSlice TString [] ]}) 1
  = Some (CSlice TString [VString "baz"; VString "qux"]).
Proof. vm_compute. reflexivity. Qed.

Example TestFlagChoices :
  finalVar (runFlag choicesFlag ["--foo=bar"] (oneVar (VString ""))) 1 = Some (CVar (VString "bar"))
  /\ finalVar (runFlag choicesFlag ["--foo=baz"] (oneVar (VString ""))) 1 = Some (CVar (VString "baz"))
  /\ failure (runFlag choicesFlag ["--foo=qux"] (oneVar (VString "")))
     = Some (ArgumentError "foo" "qux" Matcher.notAChoice)
  /\ failure (runFlag choicesFlag ["--foo=ba"] (oneVar (VString "")))
     = Some (ArgumentError "foo" "ba" Matcher.notAChoice)
  /\ failure (runFlag choicesFlag ["--foo=barr"] (oneVar (VString "")))
     = Some (ArgumentError "foo" "barr" Matcher.notAChoice).
Proof. vm_compute. repeat split. Qed.

(** [ExampleStrings]: [--name=foo --name=bar] with [NArgs(1, 0)]. *)
Example ExampleStrings :
  finalVar (runFlag (fun h => bind (Strings 1 "name" [] "Widget name" h)
                                   (fun fb h' => Ret (NArgs 1 0 fb) h'))
              ["--name=foo"; "--name=bar"] {[ 1%positive := CSlice TString [] ]}) 1
  = Some (CSlice TString [VString "foo"; VString "bar"]).
Proof. vm_compute. reflexivity. Qed.

(** ** genericValue.Set: what every call keeps *)

Section SetInvariants.
Context `{FloatConv}.
Import genericValue.

(** [*p.p = any(v).(T)] returns only nil, and then it has stored [v]. *)
Lemma assignAsT_Ret (b : t) (v : scalar) (h h' : heap) (e : option error) :
  assignAsT b v h = Ret e h' ->
  e = None /\ h' = <[p b := CVar v]> h /\ typeOf v = T b /\ is_Some (h !! p b).
Proof.
  unfold assignAsT, assign. destruct (decide _) as [E|]; [|discriminate].
  destruct (h !! p b) eqn:Hp; [|discriminate]. intros [= <- <-]. eauto.
Qed.

(** The outcomes of [Set], as one inversion: an error with the heap as it
    was, or nil with one value of type [T] stored through [p]. *)
Lemma Set_Ret_inv (b : t) (s : string) (h h' : heap) (e : option error) :
  Set_ b s h = Ret e h' ->
  (exists err, e = Some err /\ h' = h)
  \/ (exists v, e = None /\ h' = <[p b := CVar v]> h /\ typeOf v = T b).
Proof.
  unfold Set_. intros Hs.
  destruct (h !! p b) as [[cur|]|]; try discriminate.
  destruct cur;
    repeat match type of Hs with
    | match ?x with _ => _ end = _ =>
      lazymatch x with
      | assignAsT _ _ _ => fail
      | _ => destruct x eqn:?
      end
    end;
    try (injection Hs as <- <-; left; eauto; fail);
    try (apply assignAsT_Ret in Hs as (-> & -> & Ht & _); right; eauto; fail).
Qed.

(** X1.  A [Set] that returns an error has written nothing: the heap is
    the one it was called on (every scalar type, any float parser). *)
Theorem Set_error_leaves_variables (b : t) (s : string) (h h' : heap) (err : error) :
  Set_ b s h = Ret (Some err) h' -> h' = h.
Proof.
  intros Hs. apply Set_Ret_inv in Hs as [(e & _ & ->)|(v & E & _)]; [reflexivity|discriminate].
Qed.

(** X2.  A returning [Set] on a well-typed box keeps every well-typed box
    well typed, allocates nothing, and writes no variable but the box's
    own. *)
Theorem Set_keeps_boxes_well_typed (b b' : t) (s : string) (h h' : heap) (e : option error) :
  wellTyped b h -> wellTyped b' h -> Set_ b s h = Ret e h' ->
  wellTyped b' h' /\ dom h' = dom h /\ forall q, q <> p b -> h' !! q = h !! q.
Proof.
  intros (cur & Hp & Ht) (cur' & Hp' & Ht') Hs.
  apply Set_Ret_inv in Hs as [(err & _ & ->)|(v & _ & -> & Hv)].
  - split; [exists cur'; auto|]. split; reflexivity.
  - split; [|split].
    + destruct (decide (p b = p b')) as [E|E].
      * exists v. rewrite <- E, lookup_insert_eq. split; [reflexivity|].
        rewrite <- E, Hp in Hp'. injection Hp' as <-. congruence.
      * exists cur'. rewrite lookup_insert_ne by exact E. auto.
    + apply dom_insert_lookup_L. eauto.
    + intros q Hq. apply lookup_insert_ne. auto.
Qed.

(** X3.  On a well-typed box of any type but uint64, [Set] returns on every
    literal: it does not panic. *)
Theorem Set_returns_unless_uint64 (b : t) (s : string) (h : heap) :
  wellTyped b h -> T b <> TUint64 -> exists e h', Set_ b s h = Ret e h'.
Proof.
  intros (cur & Hp & Ht) Hn. unfold Set_. rewrite Hp.
  assert (Has : forall v, typeOf v = T b -> assignAsT b v h = Ret None (<[p b := CVar v]> h)).
  { intros v Hv. unfold assignAsT, assign. rewrite decide_True by exact Hv.
    rewrite Hp. reflexivity. }
  destruct cur; simpl in Ht; try congruence;
    repeat match goal with
    | |- exists _ _, match ?x with _ => _ end = _ =>
      lazymatch x with
      | assignAsT _ _ _ => fail
      | _ => destruct x eqn:?
      end
    end; try (eexists _, _; reflexivity);
    (rewrite Has by (simpl; congruence); eauto).
Qed.

End SetInvariants.

(** ** genericValue.Set: composition and the int64 case *)

Section SetCompose.
Context `{FloatConv}.
Import genericValue.

(** [Set] is: convert by the variable's type, then assign. *)
Lemma Set_as_convert (b : t) (s : string) (h : heap) (cur : scalar) :
  h !! p b = Some (CVar cur) ->
  Set_ b s h = match convertAs cur s with
               | inr e => Ret (Some e) h
               | inl v => assignAsT b v h
               end.
Proof.
  intros Hp. unfold Set_. rewrite Hp. unfold convertAs.
  destruct cur; repeat match goal with
    | |- match ?x with _ => _ end = _ => destruct x
    end; reflexivity.
Qed.

Lemma convertAs_type_only (cur cur' : scalar) (s : string) :
  typeOf cur = typeOf cur' -> convertAs cur s = convertAs cur' s.
Proof. destruct cur, cur'; simpl; intros E; try discriminate; reflexivity. Qed.

(** X4.  Scalars are overwritten: after two successful calls the heap is
    the one the second call alone would have left. *)
Theorem Set_last_write_wins (b : t) (s1 s2 : string) (h h1 h2 : heap) :
  wellTyped b h ->
  Set_ b s1 h = Ret None h1 -> Set_ b s2 h1 = Ret None h2 ->
  Set_ b s2 h = Ret None h2.
Proof.
  intros (cur & Hp & Ht) H1 H2.
  apply Set_Ret_inv in H1 as [(e & E & _)|(v1 & _ & -> & Hv1)]; [discriminate|].
  rewrite (Set_as_convert b s2 _ v1) in H2 by apply lookup_insert_eq.
  rewrite (Set_as_convert b s2 h cur Hp).
  rewrite (convertAs_type_only cur v1 s2) by congruence.
  destruct (convertAs v1 s2) as [v2|e]; [|discriminate].
  apply assignAsT_Ret in H2 as (_ & -> & Hv2 & _).
  unfold assignAsT, assign. rewrite decide_True by exact Hv2. rewrite Hp.
  rewrite insert_insert_eq. reflexivity.
Qed.

(** X5.  An int64 box accepts exactly the literals made of an optional
    sign and decimal digits whose value fits 64 bits, and stores that
    value; any other literal gives a [*strconv.NumError] from [ParseInt]
    that carries the literal, and the variable is as it was. *)
Theorem int64_Set_accepts_exactly_64_bit_literals
    (b : t) (s : string) (h : heap) (cur : Z) :
  T b = TInt64 -> h !! p b = Some (CVar (VInt64 cur)) ->
  (forall h', Set_ b s h = Ret None h' <->
     exists v, intLit s = Some v /\ - 2 ^ 63 <= v <= 2 ^ 63 - 1
               /\ h' = <[p b := CVar (VInt64 v)]> h)
  /\ ((forall v, intLit s = Some v -> ~ (- 2 ^ 63 <= v <= 2 ^ 63 - 1)) ->
      exists k, Set_ b s h = Ret (Some (NumError "ParseInt" s k)) h).
Proof.
  intros HT Hp.
  destruct (Set_int64_cases b s h cur HT Hp) as [(v & Hl & Hr & Hs)|(Hno & k & Hs)].
  - split.
    + intros h'. rewrite Hs. split.
      * intros [= <-]. eauto.
      * intros (v' & Hl' & _ & ->). congruence.
    + intros Hno. exfalso. exact (Hno v Hl Hr).
  - split.
    + intros h'. rewrite Hs. split; [discriminate|].
      intros (v & Hl & Hr & _). exfalso. exact (Hno v Hl Hr).
    + intros _. eauto.
Qed.

End SetCompose.

(** ** Decimal rendering reads back *)

Lemma byte_digitChar (d : Z) : 0 <= d <= 9 -> byte (strconv.digitChar d) = 48 + d.
Proof.
  intros Hd. unfold byte, strconv.digitChar.
  rewrite N_ascii_embedding by lia. lia.
Qed.

Lemma decAcc_app (a b : string) : forall n, decAcc n (a +:+ b) = decAcc (decAcc n a) b.
Proof.
  induction a as [|c a IH]; intros n; [reflexivity|].
  change (decAcc (n * 10 + (byte c - 48)) (a +:+ b)
          = decAcc (decAcc (n * 10 + (byte c - 48)) a) b).
  apply IH.
Qed.

Lemma allDigits_app (a b : string) :
  allDigits (a +:+ b) = allDigits a && allDigits b.
Proof.
  induction a as [|c a IH]; [reflexivity|].
  change (isDigit (byte c) && allDigits (a +:+ b)
          = isDigit (byte c) && allDigits a && allDigits b).
  rewrite IH, andb_assoc. reflexivity.
Qed.

Lemma app_empty_r (a : string) : a +:+ "" = a.
Proof.
  induction a as [|x a IH]; [reflexivity|].
  change (String x (a +:+ "") = String x a). rewrite IH. reflexivity.
Qed.

Lemma app_String_assoc (a : string) (c : ascii) (b : string) :
  a +:+ String c b = (a +:+ String c "") +:+ b.
Proof.
  induction a as [|x a IH]; [reflexivity|].
  change (String x (a +:+ String c b) = String x ((a +:+ String c "") +:+ b)).
  rewrite <- IH. reflexivity.
Qed.

(** [formatDec] writes the decimal digits of [u] in front of [acc]. *)
Lemma formatDec_digits (fuel : nat) : forall (u : Z) (acc : string),
  0 <= u < 10 ^ Z.of_nat (S fuel) ->
  exists c ds,
    strconv.formatDec (S fuel) u acc = String c ds +:+ acc
    /\ allDigits (String c ds) = true /\ decAcc 0 (String c ds) = u.
Proof.
  induction fuel as [|fuel IH]; intros u acc Hu.
  - change (10 ^ Z.of_nat 1) with 10 in Hu. simpl.
    destruct (u <? 10) eqn:E; [|apply Z.ltb_ge in E; lia].
    exists (strconv.digitChar u), "". simpl.
    rewrite byte_digitChar by lia. split; [reflexivity|]. split; [|lia].
    rewrite andb_true_r. apply isDigit_range. lia.
  - change (strconv.formatDec (S (S fuel)) u acc)
      with (if u <? 10 then String (strconv.digitChar u) acc
            else strconv.formatDec (S fuel) (u / 10)
                   (String (strconv.digitChar (u mod 10)) acc)).
    destruct (u <? 10) eqn:E.
    + apply Z.ltb_lt in E. exists (strconv.digitChar u), "". simpl.
      rewrite byte_digitChar by lia. split; [reflexivity|]. split; [|lia].
      rewrite andb_true_r. apply isDigit_range. lia.
    + apply Z.ltb_ge in E.
      rewrite (Nat2Z.inj_succ (S fuel)), Z.pow_succ_r in Hu by lia.
      destruct (IH (u / 10) (String (strconv.digitChar (u mod 10)) acc))
        as (c & ds & Hf & Hd & Hv).
      { split; [apply Z.div_pos; lia|]. apply Z.div_lt_upper_bound; lia. }
      pose proof (Z.mod_pos_bound u 10 ltac:(lia)) as Hm.
      exists c, (ds +:+ String (strconv.digitChar (u mod 10)) "").
      rewrite Hf. split.
      * change (String c ds +:+ String (strconv.digitChar (u mod 10)) acc)
          with (String c (ds +:+ String (strconv.digitChar (u mod 10)) acc)).
        rewrite (app_String_assoc ds). reflexivity.
      * change (String c (ds +:+ String (strconv.digitChar (u mod 10)) ""))
          with (String c ds +:+ String (strconv.digitChar (u mod 10)) "").
        rewrite allDigits_app, decAcc_app, Hd, Hv. simpl.
        rewrite byte_digitChar by lia. split.
        -- rewrite andb_true_r. apply isDigit_range. lia.
        -- pose proof (Z.div_mod u 10 ltac:(lia)). lia.
Qed.

Lemma uintLit_digits (c : ascii) (ds : string) :
  allDigits (String c ds) = true -> uintLit (String c ds) = Some (decAcc 0 (String c ds)).
Proof. intros Hd. unfold uintLit. rewrite Hd. reflexivity. Qed.

Lemma intLit_digits (c : ascii) (ds : string) :
  allDigits (String c ds) = true -> intLit (String c ds) = Some (decAcc 0 (String c ds)).
Proof.
  intros Hd. pose proof Hd as Hd'. simpl in Hd'. apply andb_true_iff in Hd' as [Hc _].
  apply isDigit_range in Hc. unfold intLit.
  destruct (byte c =? 43) eqn:E1; [apply Z.eqb_eq in E1; lia|].
  destruct (byte c =? 45) eqn:E2; [apply Z.eqb_eq in E2; lia|].
  apply uintLit_digits. exact Hd.
Qed.

(** [FormatUint] and [FormatInt] write literals that denote their argument. *)
Lemma uintLit_FormatUint (v : Z) :
  0 <= v < 2 ^ 64 -> uintLit (strconv.FormatUint v 10) = Some v.
Proof.
  intros Hv. unfold strconv.FormatUint.
  destruct (formatDec_digits 19 v "") as (c & ds & Hf & Hd & Hval).
  { change (2 ^ 64) with 18446744073709551616 in Hv.
    change (10 ^ Z.of_nat 20) with 100000000000000000000. lia. }
  rewrite Hf, app_empty_r.
  rewrite uintLit_digits by exact Hd. congruence.
Qed.

Lemma intLit_FormatInt (v : Z) :
  - 2 ^ 63 <= v <= 2 ^ 63 - 1 -> intLit (strconv.FormatInt v 10) = Some v.
Proof.
  intros Hv. unfold strconv.FormatInt.
  change (2 ^ 63) with 9223372036854775808 in Hv.
  destruct (v <? 0) eqn:E.
  - apply Z.ltb_lt in E.
    destruct (formatDec_digits 19 (- v) "") as (c & ds & Hf & Hd & Hval).
    { change (10 ^ Z.of_nat 20) with 100000000000000000000. lia. }
    rewrite Hf, app_empty_r.
    unfold intLit. change (byte "-" =? 43) with false. change (byte "-" =? 45) with true.
    cbv iota. rewrite uintLit_digits by exact Hd. rewrite Hval. simpl. f_equal. lia.
  - apply Z.ltb_ge in E.
    destruct (formatDec_digits 19 v "") as (c & ds & Hf & Hd & Hval).
    { change (10 ^ Z.of_nat 20) with 100000000000000000000. lia. }
    rewrite Hf, app_empty_r.
    rewrite intLit_digits by exact Hd. congruence.
Qed.

Section RoundTrip.
Context `{FloatConv}.
Import genericValue.

(** X6.  The decimal rendering reads back: for every int64 [v],
    [Set(strconv.FormatInt(v, 10))] succeeds and [Get] then returns [v]. *)
Theorem int64_Set_reads_back_FormatInt (b : t) (h : heap) (cur v : Z) :
  T b = TInt64 -> h !! p b = Some (CVar (VInt64 cur)) ->
  - 2 ^ 63 <= v <= 2 ^ 63 - 1 ->
  Set_ b (strconv.FormatInt v 10) h = Ret None (<[p b := CVar (VInt64 v)]> h)
  /\ Get b (<[p b := CVar (VInt64 v)]> h) = Some (VInt64 v).
Proof.
  intros HT Hp Hv. split.
  - destruct (Set_int64_cases b (strconv.FormatInt v 10) h cur HT Hp)
      as [(v' & Hl & _ & Hs)|(Hno & _)].
    + rewrite (intLit_FormatInt v Hv) in Hl. injection Hl as <-. exact Hs.
    + exfalso. exact (Hno v (intLit_FormatInt v Hv) Hv).
  - unfold Get. rewrite lookup_insert_eq. reflexivity.
Qed.

(** X7.  For int and uint boxes the decimal rendering of a value reads
    back when the value fits 32 bits, the width their [Set] parses with. *)
Theorem int_and_uint_Set_read_back_32_bit_values (b : t) (h : heap) (cur v : Z) :
  (T b = TInt -> h !! p b = Some (CVar (VInt cur)) -> - 2 ^ 31 <= v <= 2 ^ 31 - 1 ->
   Set_ b (strconv.FormatInt v 10) h = Ret None (<[p b := CVar (VInt v)]> h))
  /\ (T b = TUint -> h !! p b = Some (CVar (VUint cur)) -> 0 <= v <= 2 ^ 32 - 1 ->
      Set_ b (strconv.FormatUint v 10) h = Ret None (<[p b := CVar (VUint v)]> h)).
Proof.
  split.
  - intros HT Hp Hv.
    assert (Hv64 : - 2 ^ 63 <= v <= 2 ^ 63 - 1).
    { change (2 ^ 31) with 2147483648 in Hv. change (2 ^ 63) with 9223372036854775808. lia. }
    destruct (Set_int_cases b (strconv.FormatInt v 10) h cur HT Hp)
      as [(v' & Hl & _ & Hs)|(Hno & _)].
    + rewrite (intLit_FormatInt v Hv64) in Hl. injection Hl as <-. exact Hs.
    + exfalso. exact (Hno v (intLit_FormatInt v Hv64) Hv).
  - intros HT Hp Hv.
    assert (Hv64 : 0 <= v < 2 ^ 64).
    { change (2 ^ 32) with 4294967296 in Hv. change (2 ^ 64) with 18446744073709551616. lia. }
    destruct (Set_uint_cases b (strconv.FormatUint v 10) h cur HT Hp)
      as [(v' & Hl & _ & Hs)|(Hno & _)].
    + rewrite (uintLit_FormatUint v Hv64) in Hl. injection Hl as <-. exact Hs.
    + specialize (Hno v (uintLit_FormatUint v Hv64)). lia.
Qed.

End RoundTrip.

(** ** genericValue.Set: edge literals *)

Section Edges.
Context `{FloatConv}.
Import genericValue.

(** X8.  A string box accepts every literal and stores it byte for byte;
    a bool box reads back both outputs of [strconv.FormatBool]. *)
Theorem string_and_bool_Set_read_back (b : t) (h : heap) :
  wellTyped b h ->
  (T b = TString -> forall s,
     Set_ b s h = Ret None (<[p b := CVar (VString s)]> h)
     /\ Get b (<[p b := CVar (VString s)]> h) = Some (VString s))
  /\ (T b = TBool -> forall v,
        Set_ b (strconv.FormatBool v) h = Ret None (<[p b := CVar (VBool v)]> h)
        /\ Get b (<[p b := CVar (VBool v)]> h) = Some (VBool v)).
Proof.
  intros (cur & Hp & Ht). split.
  - intros HT s. split; [|unfold Get; rewrite lookup_insert_eq; reflexivity].
    rewrite (Set_as_convert b s h cur Hp).
    destruct cur; simpl in Ht; try congruence. simpl.
    unfold assignAsT, assign. rewrite decide_True by (simpl; congruence).
    rewrite Hp. reflexivity.
  - intros HT v. split; [|unfold Get; rewrite lookup_insert_eq; reflexivity].
    rewrite (Set_as_convert b _ h cur Hp).
    destruct cur; simpl in Ht; try congruence.
    destruct v; simpl; unfold assignAsT, assign;
      rewrite decide_True by (simpl; congruence); rewrite Hp; reflexivity.
Qed.

(** X9.  The empty literal: a string box stores it; an integer, bool or
    duration box returns an error and leaves the variable alone (for a
    uint64 box too: the parse fails before the assertion). *)
Theorem Set_empty_literal (b : t) (h : heap) :
  wellTyped b h ->
  (T b = TString -> Set_ b "" h = Ret None (<[p b := CVar (VString "")]> h))
  /\ (T b <> TString -> T b <> TFloat64 -> exists err, Set_ b "" h = Ret (Some err) h).
Proof.
  intros (cur & Hp & Ht). rewrite (Set_as_convert b "" h cur Hp). split.
  - intros HT. destruct cur; simpl in Ht; try congruence. simpl.
    unfold assignAsT, assign. rewrite decide_True by (simpl; congruence).
    rewrite Hp. reflexivity.
  - intros Hs Hf. destruct cur; simpl in Ht; try congruence;
      (eexists; vm_compute; reflexivity).
Qed.

Lemma leadingInt_allDigits (s : string) : forall x,
  allDigits s = true ->
  time.leadingInt s x = None \/ exists v, time.leadingInt s x = Some (v, "").
Proof.
  induction s as [|c s IH]; intros x Hd; simpl in *.
  - right. eauto.
  - apply andb_true_iff in Hd as [Hc Hs]. rewrite Hc. simpl.
    destruct (2 ^ 63 / 10 <? x); [left; reflexivity|].
    destruct (2 ^ 63 <? _); [left; reflexivity|]. apply IH. exact Hs.
Qed.

Lemma ParseDuration_bare_number (s : string) :
  allDigits s = true -> s <> "" -> s <> "0" -> exists err, time.ParseDuration s = inr err.
Proof.
  intros Hd Hne H0. destruct s as [|c r]; [congruence|].
  pose proof Hd as Hd'. simpl in Hd'. apply andb_true_iff in Hd' as [Hc _].
  pose proof Hc as Hr. apply isDigit_range in Hr.
  unfold time.ParseDuration.
  destruct (byte c =? 45) eqn:E1; [apply Z.eqb_eq in E1; lia|].
  destruct (byte c =? 43) eqn:E2; [apply Z.eqb_eq in E2; lia|].
  simpl orb. cbv iota.
  rewrite bool_decide_false by exact H0.
  rewrite bool_decide_false by exact Hne.
  change (String.length (String c r)) with (S (String.length r)).
  cbn [time.parseDurationLoop].
  rewrite Hc, orb_true_r. simpl negb. cbv iota.
  destruct (leadingInt_allDigits (String c r) 0 Hd) as [->|[v ->]]; [eauto|].
  simpl. eauto.
Qed.

(** X10.  A duration box accepts ["0"] without a unit and rejects every
    other literal made of digits only. *)
Theorem duration_Set_needs_a_unit (b : t) (h : heap) (cur : Z) (s : string) :
  T b = TDuration -> h !! p b = Some (CVar (VDuration cur)) ->
  Set_ b "0" h = Ret None (<[p b := CVar (VDuration 0)]> h)
  /\ (allDigits s = true -> s <> "" -> s <> "0" ->
      exists err, Set_ b s h = Ret (Some err) h).
Proof.
  intros HT Hp. split.
  - rewrite (Set_as_convert b "0" h _ Hp). simpl.
    unfold assignAsT, assign. rewrite decide_True by (simpl; congruence).
    rewrite Hp. reflexivity.
  - intros Hd Hne H0. rewrite (Set_as_convert b s h _ Hp). simpl.
    destruct (ParseDuration_bare_number s Hd Hne H0) as [err ->]. eauto.
Qed.

End Edges.

(** ** Declaring flags *)

Lemma Var_fields (v : Value) (name usage : string) :
  Flag.Value (flag (Var v name usage)) = v
  /\ Flag.Usage (flag (Var v name usage)) = usage
  /\ Flag.Name (flag (Var v name usage)) = (if len name =? 1 then "" else name)
  /\ Flag.ShortName (flag (Var v name usage)) = (if len name =? 1 then name else "").
Proof. unfold Var. destruct (len name =? 1); simpl; auto. Qed.

Lemma viaGeneric_cases (val : scalar) (p : loc) (isbool : bool) (name usage : string)
    (h : heap) :
  (is_Some (h !! p)
   /\ viaGeneric val p isbool name usage h
      = Ret (Var (ValGeneric (genericValue.mk (typeOf val) p isbool)) name usage)
            (<[p := CVar val]> h))
  \/ (h !! p = None /\ viaGeneric val p isbool name usage h = Panic nilDeref).
Proof.
  unfold viaGeneric, genericValue.newGeneric, assign, bind.
  destruct (h !! p) eqn:Hp; [left|right]; eauto.
Qed.

Lemma declares_viaGeneric d isbool p name usage mk :
  declares d isbool p name usage mk -> mk = viaGeneric d p isbool name usage.
Proof.
  intros [(x & -> & -> & ->)|[(x & -> & -> & ->)|[(x & -> & -> & ->)|[(x & -> & -> & ->)|
         [(x & -> & -> & ->)|[(x & -> & -> & ->)|[(x & -> & -> & ->)|(x & -> & -> & ->)]]]]]]];
    reflexivity.
Qed.

(** X11.  Declaring a scalar flag through a typed constructor writes the
    default into the destination at once, whatever it held, and nothing
    else; the box it returns points to the destination and is well typed.
    On a nil destination the constructor panics. *)
Theorem declaring_a_flag_stores_its_default
    (d : scalar) (isbool : bool) (p : loc) (name usage : string)
    (mk : heap -> result heap FlagBuilder) (h : heap) :
  declares d isbool p name usage mk ->
  (h !! p = None -> mk h = Panic nilDeref)
  /\ (is_Some (h !! p) ->
      exists fb b,
        mk h = Ret fb (<[p := CVar d]> h)
        /\ Flag.Value (flag fb) = ValGeneric b
        /\ genericValue.p b = p
        /\ wellTyped b (<[p := CVar d]> h)
        /\ genericValue.Get b (<[p := CVar d]> h) = Some d
        /\ forall q, q <> p -> (<[p := CVar d]> h : heap) !! q = h !! q).
Proof.
  intros Hd. rewrite (declares_viaGeneric _ _ _ _ _ _ Hd).
  destruct (viaGeneric_cases d p isbool name usage h) as [[Hp ->]|[Hp ->]]; split.
  - intros E. rewrite E in Hp. destruct Hp; discriminate.
  - intros _. eexists _, (genericValue.mk (typeOf d) p isbool).
    split; [reflexivity|]. split; [apply Var_fields|]. split; [reflexivity|].
    split; [exists d; simpl; rewrite lookup_insert_eq; auto|].
    split; [unfold genericValue.Get; simpl; rewrite lookup_insert_eq; reflexivity|].
    intros q Hq. apply lookup_insert_ne. auto.
  - reflexivity.
  - intros [x Hx]. congruence.
Qed.

(** X12.  [isBoolValue] holds of the flags built by [Bool] and of no
    other: not of the other scalar constructors, [Strings] or [Func].  A
    [Func] flag's [Set] is the caller's function itself. *)
Theorem only_Bool_flags_are_boolean_capable
    (p : loc) (name usage : string) (h h' : heap) (fb : FlagBuilder) :
  (forall d isbool mk,
     declares d isbool p name usage mk -> mk h = Ret fb h' ->
     isBoolValue (Flag.Value (flag fb)) = isbool)
  /\ ((exists x, Strings p name x usage h = Ret fb h') ->
      isBoolValue (Flag.Value (flag fb)) = false)
  /\ (forall fn,
        isBoolValue (Flag.Value (flag (Func name usage fn))) = false
        /\ forall `{FloatConv} s h0,
             Value_Set (Flag.Value (flag (Func name usage fn))) s h0 = fn s h0).
Proof.
  split; [|split].
  - intros d isbool mk Hd Hr. rewrite (declares_viaGeneric _ _ _ _ _ _ Hd) in Hr.
    destruct (viaGeneric_cases d p isbool name usage h) as [[_ E]|[_ E]];
      rewrite E in Hr; [|discriminate].
    injection Hr as <- _. rewrite (proj1 (Var_fields _ _ _)). reflexivity.
  - intros [x Hr]. unfold Strings, bind in Hr.
    destruct (genericSliceValue.newGenericSlice _ _ _ _); [|discriminate].
    injection Hr as <- _. simpl. rewrite (proj1 (Var_fields _ _ _)). reflexivity.
  - intros fn. unfold Func. rewrite (proj1 (Var_fields _ _ _)). split; reflexivity.
Qed.

(** X13.  [Var] keeps the name in exactly one of the two name fields (the
    other is empty): the long name unless its length is 1.  It rejects no
    name: for the empty name both fields are empty.  The value and the
    usage text are stored as given. *)
Theorem Var_keeps_the_name_in_one_field (v : Value) (name usage : string) :
  Flag.Name (flag (Var v name usage)) +:+ Flag.ShortName (flag (Var v name usage)) = name
  /\ (Flag.Name (flag (Var v name usage)) = ""
      \/ Flag.ShortName (flag (Var v name usage)) = "")
  /\ (len name <> 1 ->
      Flag.Name (flag (Var v name usage)) = name
      /\ Flag.ShortName (flag (Var v name usage)) = "")
  /\ Flag.Value (flag (Var v name usage)) = v
  /\ Flag.Usage (flag (Var v name usage)) = usage.
Proof.
  destruct (Var_fields v name usage) as (Hv & Hu & Hn & Hs).
  rewrite Hn, Hs, Hv, Hu. destruct (len name =? 1) eqn:E.
  - apply Z.eqb_eq in E. split; [reflexivity|]. split; [left; reflexivity|].
    split; [intros Hn'; lia|]. split; reflexivity.
  - split; [apply app_empty_r|]. split; [right; reflexivity|].
    split; [intros _; split; reflexivity|]. split; reflexivity.
Qed.

(** ** genericSliceValue: every return of Set, and String *)

Section SlicePost.
Import genericSliceValue.

(** X14.  Whenever a collection box's [Set] returns, from any state: it
    returns nil, the element type is string, [hot] is true afterwards,
    nothing was allocated, and the destination is the previous elements
    (none if the box was not hot) followed by the literal. *)
Theorem slice_Set_postcondition (b : t) (s : string) (h h' : heap) (e : option error) :
  Set_ b s h = Ret e h' ->
  e = None /\ T b = TString /\ self b <> p b
  /\ hot b h' = Some true
  /\ dom h' = dom h
  /\ exists xs,
       Get b h' = Some (xs ++ [VString s])%list
       /\ (hot b h = Some true -> Get b h = Some xs)
       /\ (hot b h = Some false -> xs = []).
Proof.
  unfold Set_. intros Hs.
  destruct (hot b h) as [was|] eqn:Hhot; [|discriminate].
  assert (Hself : exists c, h !! self b = Some c /\ c = CVar (VBool was)).
  { unfold hot in Hhot. destruct (h !! self b) as [[[]|]|]; try discriminate.
    injection Hhot as ->. eauto. }
  destruct Hself as (c & Hself & ->).
  destruct was.
  - destruct (h !! p b) as [[|T' xs]|] eqn:Hp; try discriminate.
    destruct (decide (typeOf (VString s) = T b)) as [HT|]; [|discriminate].
    injection Hs as <- <-.
    assert (Hne : self b <> p b).
    { intros E. rewrite E, Hp in Hself. discriminate. }
    split; [reflexivity|]. split; [symmetry; exact HT|]. split; [exact Hne|].
    split; [unfold hot; rewrite lookup_insert_ne by auto; rewrite Hself; reflexivity|].
    split; [apply dom_insert_lookup_L; eauto|].
    exists xs. unfold Get. rewrite lookup_insert_eq, Hp.
    split; [reflexivity|]. split; [reflexivity|discriminate].
  - unfold assign in Hs. destruct (h !! p b) as [c0|] eqn:Hp; [|discriminate].
    destruct (decide (self b = p b)) as [E|Hne].
    + rewrite E, lookup_insert_eq in Hs. discriminate.
    + rewrite lookup_insert_ne, lookup_insert_eq in Hs by exact Hne.
      destruct (decide (typeOf (VString s) = T b)) as [HT|]; [|discriminate].
      injection Hs as <- <-.
      split; [reflexivity|]. split; [symmetry; exact HT|]. split; [exact Hne|].
      split; [unfold hot; rewrite lookup_insert_ne by auto;
              rewrite lookup_insert_eq; reflexivity|].
      split.
      { rewrite dom_insert_lookup_L.
        - rewrite dom_insert_lookup_L.
          + apply dom_insert_lookup_L. eauto.
          + rewrite lookup_insert_ne by auto. eauto.
        - rewrite lookup_insert_ne by auto. rewrite lookup_insert_eq. eauto. }
      exists []. unfold Get. rewrite lookup_insert_eq.
      split; [reflexivity|]. split; [discriminate|reflexivity].
Qed.

End SlicePost.

Section SliceString.
Context `{FloatConv}.
Import genericSliceValue.

Lemma formatElem_strings (xs : list string) : formatElem <$> (VString <$> xs) = xs.
Proof. induction xs as [|x xs IH]; simpl; [reflexivity|]. f_equal. exact IH. Qed.

Lemma app_assoc_string (a b c : string) : (a +:+ b) +:+ c = a +:+ (b +:+ c).
Proof.
  induction a as [|x a IH]; [reflexivity|].
  change (String x ((a +:+ b) +:+ c) = String x (a +:+ (b +:+ c))).
  rewrite IH. reflexivity.
Qed.

Lemma joinSpace_merge (x y : string) (rest : list string) :
  joinSpace (x :: y :: rest) = joinSpace ((x +:+ " " +:+ y) :: rest).
Proof.
  destruct rest as [|z rest]; [reflexivity|].
  change (joinSpace (x :: y :: z :: rest))
    with (x +:+ " " +:+ (y +:+ " " +:+ joinSpace (z :: rest))).
  change (joinSpace ((x +:+ " " +:+ y) :: z :: rest))
    with ((x +:+ " " +:+ y) +:+ " " +:+ joinSpace (z :: rest)).
  rewrite !app_assoc_string. reflexivity.
Qed.

(** X15.  A collection box's [String] renders the destination as
    [fmt] does: the strings separated by single spaces, in brackets (it
    panics on a nil pointer).  The rendering cannot tell a space inside a
    literal from the separator. *)
Theorem slice_String_renders_with_spaces
    (b : t) (h h' : heap) (T1 T2 : GoType) (xs : list string) (x y : string)
    (rest : list string) :
  (h !! p b = Some (CSlice T1 (VString <$> xs)) ->
   String_ b h = Ret ("[" +:+ joinSpace xs +:+ "]") h)
  /\ (h !! p b = None -> String_ b h = Panic nilDeref)
  /\ (h !! p b = Some (CSlice T1 (VString <$> x :: y :: rest)) ->
      h' !! p b = Some (CSlice T2 (VString <$> (x +:+ " " +:+ y) :: rest)) ->
      exists text, String_ b h = Ret text h /\ String_ b h' = Ret text h').
Proof.
  split; [|split].
  - intros Hp. unfold String_. rewrite Hp, formatElem_strings. reflexivity.
  - intros Hp. unfold String_. rewrite Hp. reflexivity.
  - intros Hp Hp'. unfold String_. rewrite Hp, Hp', !formatElem_strings.
    rewrite joinSpace_merge. eauto.
Qed.

End SliceString.

(** ** The theorems at concrete inputs *)

(** C4 at [--foo=a --foo=b] over the default [["dflt"]]. *)
Lemma slice_Set_appends_witness :
  is_Some (({[ 1%positive := CSlice TString [] ]} : heap) !! 1%positive)
  /\ exists b h1 h2 h3,
       genericSliceValue.newGenericSlice TString (VString <$> ["dflt"]) 1
         {[ 1%positive := CSlice TString [] ]} = Ret b h1
       /\ genericSliceValue.Get b h1 = Some (VString <$> ["dflt"])
       /\ genericSliceValue.Set_ b "a" h1 = Ret None h2
       /\ genericSliceValue.Get b h2 = Some [VString "a"]
       /\ setAll b ("a" :: ["b"]) h1 = Ret None h3
       /\ genericSliceValue.Get b h3 = Some (VString <$> "a" :: ["b"]).
Proof.
  assert (Hp : is_Some (({[ 1%positive := CSlice TString [] ]} : heap) !! 1%positive)).
  { vm_compute. eexists. reflexivity. }
  split; [exact Hp|].
  exact (slice_Set_appends_in_call_order _ 1 ["dflt"] "a" ["b"] Hp).
Defined.

(** C5: a string collection with default [["dflt"]] next to a boolean flag
    that is supplied once. *)
Lemma default_kept_witness :
  exists b h1 h2 e,
    genericSliceValue.newGenericSlice TString [VString "dflt"] 1
      {[ 1%positive := CSlice TString []; 2%positive := CVar (VBool false) ]} = Ret b h1
    /\ Forall (fun c => leaves c.1 (genericSliceValue.p b)
                        /\ leaves c.1 (genericSliceValue.self b))
              [(ValGeneric (genericValue.mk TBool 2 true), "true")]
    /\ @runCalls decimalFloat_conv [(ValGeneric (genericValue.mk TBool 2 true), "true")] h1
       = Ret e h2
    /\ genericSliceValue.Get b h2 = Some [VString "dflt"]
    /\ genericSliceValue.hot b h2 = Some false.
Proof.
  eexists _, _, _, _.
  split; [vm_compute; reflexivity|].
  assert (Hall : Forall (fun c : Value * string =>
                           leaves c.1 1%positive /\ leaves c.1 3%positive)
                        [(ValGeneric (genericValue.mk TBool 2 true), "true")]).
  { repeat constructor; simpl; discriminate. }
  split; [exact Hall|].
  split; [vm_compute; reflexivity|].
  eapply (@default_kept_when_Set_never_called decimalFloat_conv TString [VString "dflt"] 1
            {[ 1%positive := CSlice TString []; 2%positive := CVar (VBool false) ]}
            _ _ _ [(ValGeneric (genericValue.mk TBool 2 true), "true")] _).
  - vm_compute. reflexivity.
  - exact Hall.
  - vm_compute. reflexivity.
Defined.

(** C6 at the flag of [TestFlagChoices]: a prefix and an extension of the
    member ["bar"] are both refused. *)
Lemma choices_witness :
  Flag.Choices fooFlag = Some ["bar"; "baz"]
  /\ ("ba" ∉ ["bar"; "baz"]) /\ ("barr" ∉ ["bar"; "baz"])
  /\ @Matcher.applyLiteral decimalFloat_conv fooFlag "ba" (oneVar (VString ""))
     = Ret (Some (ArgumentError "foo" "ba" Matcher.notAChoice)) (oneVar (VString ""))
  /\ @Matcher.applyLiteral decimalFloat_conv fooFlag "barr" (oneVar (VString ""))
     = Ret (Some (ArgumentError "foo" "barr" Matcher.notAChoice)) (oneVar (VString "")).
Proof.
  assert (Hba : "ba" ∉ ["bar"; "baz"]).
  { apply (bool_decide_unpack _). vm_compute. exact I. }
  assert (Hbarr : "barr" ∉ ["bar"; "baz"]).
  { apply (bool_decide_unpack _). vm_compute. exact I. }
  split; [reflexivity|]. split; [exact Hba|]. split; [exact Hbarr|]. split.
  - exact (proj1 (@choices_checked_on_the_raw_literal decimalFloat_conv fooFlag
                    ["bar"; "baz"] "ba" (oneVar (VString "")) eq_refl) Hba).
  - exact (proj1 (@choices_checked_on_the_raw_literal decimalFloat_conv fooFlag
                    ["bar"; "baz"] "barr" (oneVar (VString "")) eq_refl) Hbarr).
Defined.

(** C7 on [guardedFlag]: ["9"] stops at the choices, ["7"] at the validator
    (the [uint64] box, which would panic, is not reached), and ["8"] reaches
    the box. *)
Lemma validation_order_witness :
  @Matcher.applyLiteral decimalFloat_conv guardedFlag "9" (oneVar (VUint64 0))
  = Ret (Some (ArgumentError "n" "9" Matcher.notAChoice)) (oneVar (VUint64 0))
  /\ @Matcher.applyLiteral decimalFloat_conv guardedFlag "7" (oneVar (VUint64 0))
     = Ret (Some (ArgumentError "n" "7" (errorString "unlucky"))) (oneVar (VUint64 0))
  /\ @Matcher.applyLiteral decimalFloat_conv guardedFlag "8" (oneVar (VUint64 0))
     = Panic badAssert.
Proof.
  assert (H9 : "9" ∉ ["7"; "8"]).
  { apply (bool_decide_unpack _). vm_compute. exact I. }
  assert (H7 : forall cs, Flag.Choices guardedFlag = Some cs -> "7" ∈ cs).
  { intros cs [= <-]. apply (bool_decide_unpack _). vm_compute. exact I. }
  assert (H8 : forall cs, Flag.Choices guardedFlag = Some cs -> "8" ∈ cs).
  { intros cs [= <-]. apply (bool_decide_unpack _). vm_compute. exact I. }
  split; [|split].
  - exact (proj1 (@validation_is_ordered_and_short_circuits decimalFloat_conv guardedFlag
                    "9" (oneVar (VUint64 0))) _ eq_refl H9).
  - exact (proj1 (proj2 (@validation_is_ordered_and_short_circuits decimalFloat_conv
                           guardedFlag "7" (oneVar (VUint64 0)))) _ _ H7 eq_refl eq_refl).
  - rewrite (proj2 (proj2 (@validation_is_ordered_and_short_circuits decimalFloat_conv
                             guardedFlag "8" (oneVar (VUint64 0)))) H8).
    + vm_compute. reflexivity.
    + intros fn [= <-]. reflexivity.
Defined.

(** C8 at [TestBool], with one more token after [--foo]. *)
Lemma bare_bool_flag_witness :
  exists fb h1,
    Bool 1 "foo" false "" (oneVar (VBool false)) = Ret fb h1
    /\ @Matcher.parseTokens decimalFloat_conv [flag fb] ["--foo"; "next"] ∅ [] h1
       = @Matcher.parseTokens decimalFloat_conv [flag fb] ["next"]
           (Matcher.bump (flag fb) ∅) [] (<[1%positive := CVar (VBool true)]> h1).
Proof.
  eexists _, _. split; [vm_compute; reflexivity|].
  apply (@bare_bool_flag_sets_true_and_keeps_next_token decimalFloat_conv
           1 "foo" "" false (oneVar (VBool false))).
  - vm_compute. reflexivity.
  - vm_compute. discriminate.
  - discriminate.
  - vm_compute. reflexivity.
  - vm_compute. reflexivity.
Defined.

(** C9 with the dispatcher of the matcher as [Command.Run]: a construction
    error gives 1; otherwise the handler's 7 comes back. *)
Lemma RunWithArgs_witness :
  RunWithArgs Matcher.Command demoRun demoText
    (fun w => Ret (demoCommand, Some (errorString "xflags: flag has no name")) w)
    ["--foo"] demoWorld
  = Ret 1 (printErr demoText (errorString "xflags: flag has no name") demoWorld)
  /\ RunWithArgs Matcher.Command demoRun demoText
       (fun w => Ret (demoCommand, None) w) ["--foo"] demoWorld
     = Ret 7 {| mem := oneVar (VBool true); stdout := []; stderr := [] |}.
Proof.
  split.
  - exact (proj1 (proj1 (RunWithArgs_exit_codes Matcher.Command demoRun demoText
                           (fun w => Ret (demoCommand, Some (errorString "xflags: flag has no name")) w)
                           ["--foo"] demoWorld demoWorld demoCommand) _ eq_refl)).
  - apply (proj2 (proj2 (RunWithArgs_exit_codes Matcher.Command demoRun demoText
                            (fun w => Ret (demoCommand, None) w)
                            ["--foo"] demoWorld demoWorld demoCommand) eq_refl)).
    vm_compute. reflexivity.
Defined.

(** C10 at the name ["v"]. *)
Lemma one_character_name_witness :
  len "v" = 1
  /\ Flag.ShortName (flag (Func "v" "verbose" (fun _ h => Ret None h))) = "v"
  /\ Flag.Name (flag (Func "v" "verbose" (fun _ h => Ret None h))) = "".
Proof.
  split; [reflexivity|].
  exact (proj1 (proj2 (one_character_name_is_short_only "v" "verbose" eq_refl)) _ _ eq_refl).
Defined.

(** ** The properties of the boxes and constructors at concrete inputs *)

(** X1 at an int64 box holding 5, given the literal ["x"]. *)
Lemma Set_error_leaves_variables_witness :
  exists err h',
    @genericValue.Set_ decimalFloat_conv (genericValue.mk TInt64 1 false) "x"
      (oneVar (VInt64 5)) = Ret (Some err) h'
    /\ h' = oneVar (VInt64 5).
Proof.
  eexists _, _. split; [vm_compute; reflexivity|].
  apply (@Set_error_leaves_variables decimalFloat_conv (genericValue.mk TInt64 1 false) "x"
           (oneVar (VInt64 5)) _ (NumError "ParseInt" "x" ErrSyntax)).
  vm_compute. reflexivity.
Defined.

(** X2 at an int64 box holding 5, given the literal ["7"]. *)
Lemma Set_keeps_boxes_well_typed_witness :
  wellTyped (genericValue.mk TInt64 1 false) (oneVar (VInt64 5))
  /\ @genericValue.Set_ decimalFloat_conv (genericValue.mk TInt64 1 false) "7"
       (oneVar (VInt64 5)) = Ret None (oneVar (VInt64 7))
  /\ wellTyped (genericValue.mk TInt64 1 false) (oneVar (VInt64 7))
  /\ dom (oneVar (VInt64 7)) = dom (oneVar (VInt64 5)).
Proof.
  assert (Hw : wellTyped (genericValue.mk TInt64 1 false) (oneVar (VInt64 5))).
  { exists (VInt64 5). split; vm_compute; reflexivity. }
  assert (Hs : @genericValue.Set_ decimalFloat_conv (genericValue.mk TInt64 1 false) "7"
                 (oneVar (VInt64 5)) = Ret None (oneVar (VInt64 7))).
  { vm_compute. reflexivity. }
  split; [exact Hw|]. split; [exact Hs|].
  destruct (@Set_keeps_boxes_well_typed decimalFloat_conv
              (genericValue.mk TInt64 1 false) (genericValue.mk TInt64 1 false) "7"
              (oneVar (VInt64 5)) (oneVar (VInt64 7)) None Hw Hw Hs) as (H1 & H2 & _).
  split; [exact H1|exact H2].
Defined.

(** X3 at a bool box, given a literal that is no boolean. *)
Lemma Set_returns_unless_uint64_witness :
  wellTyped (genericValue.mk TBool 1 true) (oneVar (VBool false))
  /\ exists e h',
       @genericValue.Set_ decimalFloat_conv (genericValue.mk TBool 1 true) "zz"
         (oneVar (VBool false)) = Ret e h'.
Proof.
  assert (Hw : wellTyped (genericValue.mk TBool 1 true) (oneVar (VBool false))).
  { exists (VBool false). split; vm_compute; reflexivity. }
  split; [exact Hw|].
  apply (@Set_returns_unless_uint64 decimalFloat_conv (genericValue.mk TBool 1 true) "zz"
           (oneVar (VBool false)) Hw).
  discriminate.
Defined.

(** X4 at an int64 box, given ["1"] and then ["2"]. *)
Lemma Set_last_write_wins_witness :
  @genericValue.Set_ decimalFloat_conv (genericValue.mk TInt64 1 false) "2"
    (oneVar (VInt64 5)) = Ret None (oneVar (VInt64 2)).
Proof.
  apply (@Set_last_write_wins decimalFloat_conv (genericValue.mk TInt64 1 false) "1" "2"
           (oneVar (VInt64 5)) (oneVar (VInt64 1)) (oneVar (VInt64 2))).
  - exists (VInt64 5). split; vm_compute; reflexivity.
  - vm_compute. reflexivity.
  - vm_compute. reflexivity.
Defined.

(** X5 at the literal ["-12"]. *)
Lemma int64_Set_accepts_exactly_witness :
  @genericValue.Set_ decimalFloat_conv (genericValue.mk TInt64 1 false) "-12"
    (oneVar (VInt64 5))
  = Ret None (<[1%positive := CVar (VInt64 (-12))]> (oneVar (VInt64 5))).
Proof.
  apply (proj1 (@int64_Set_accepts_exactly_64_bit_literals decimalFloat_conv
                  (genericValue.mk TInt64 1 false) "-12" (oneVar (VInt64 5)) 5
                  eq_refl eq_refl)).
  exists (-12). split; [reflexivity|]. split; [lia|reflexivity].
Defined.

(** X6 at the value -12. *)
Lemma int64_Set_reads_back_witness :
  @genericValue.Set_ decimalFloat_conv (genericValue.mk TInt64 1 false)
    (strconv.FormatInt (-12) 10) (oneVar (VInt64 5))
  = Ret None (<[1%positive := CVar (VInt64 (-12))]> (oneVar (VInt64 5)))
  /\ genericValue.Get (genericValue.mk TInt64 1 false)
       (<[1%positive := CVar (VInt64 (-12))]> (oneVar (VInt64 5))) = Some (VInt64 (-12)).
Proof.
  apply (@int64_Set_reads_back_FormatInt decimalFloat_conv (genericValue.mk TInt64 1 false)
           (oneVar (VInt64 5)) 5 (-12) eq_refl eq_refl).
  lia.
Defined.

(** X7 at an int box and the value -12, and at a uint box and the value 40. *)
Lemma int_and_uint_Set_read_back_witness :
  @genericValue.Set_ decimalFloat_conv (genericValue.mk TInt 1 false)
    (strconv.FormatInt (-12) 10) (oneVar (VInt 5))
  = Ret None (<[1%positive := CVar (VInt (-12))]> (oneVar (VInt 5)))
  /\ @genericValue.Set_ decimalFloat_conv (genericValue.mk TUint 1 false)
       (strconv.FormatUint 40 10) (oneVar (VUint 5))
     = Ret None (<[1%positive := CVar (VUint 40)]> (oneVar (VUint 5))).
Proof.
  split.
  - apply (proj1 (@int_and_uint_Set_read_back_32_bit_values decimalFloat_conv
                    (genericValue.mk TInt 1 false) (oneVar (VInt 5)) 5 (-12)) eq_refl eq_refl).
    lia.
  - apply (proj2 (@int_and_uint_Set_read_back_32_bit_values decimalFloat_conv
                    (genericValue.mk TUint 1 false) (oneVar (VUint 5)) 5 40) eq_refl eq_refl).
    lia.
Defined.

(** X8 at a string box given ["a b"], and at a bool box given ["true"]. *)
Lemma string_and_bool_Set_read_back_witness :
  @genericValue.Set_ decimalFloat_conv (genericValue.mk TString 1 false) "a b"
    (oneVar (VString "old"))
  = Ret None (<[1%positive := CVar (VString "a b")]> (oneVar (VString "old")))
  /\ @genericValue.Set_ decimalFloat_conv (genericValue.mk TBool 1 true)
       (strconv.FormatBool true) (oneVar (VBool false))
     = Ret None (<[1%positive := CVar (VBool true)]> (oneVar (VBool false))).
Proof.
  split.
  - refine (proj1 (proj1 (@string_and_bool_Set_read_back decimalFloat_conv
                            (genericValue.mk TString 1 false) (oneVar (VString "old")) _)
                     eq_refl "a b")).
    exists (VString "old"). split; vm_compute; reflexivity.
  - refine (proj1 (proj2 (@string_and_bool_Set_read_back decimalFloat_conv
                            (genericValue.mk TBool 1 true) (oneVar (VBool false)) _)
                     eq_refl true)).
    exists (VBool false). split; vm_compute; reflexivity.
Defined.

(** X9 at a string box and at an int box. *)
Lemma Set_empty_literal_witness :
  @genericValue.Set_ decimalFloat_conv (genericValue.mk TString 1 false) ""
    (oneVar (VString "old"))
  = Ret None (<[1%positive := CVar (VString "")]> (oneVar (VString "old")))
  /\ exists err,
       @genericValue.Set_ decimalFloat_conv (genericValue.mk TInt 1 false) ""
         (oneVar (VInt 5)) = Ret (Some err) (oneVar (VInt 5)).
Proof.
  split.
  - refine (proj1 (@Set_empty_literal decimalFloat_conv
                     (genericValue.mk TString 1 false) (oneVar (VString "old")) _) eq_refl).
    exists (VString "old"). split; vm_compute; reflexivity.
  - refine (proj2 (@Set_empty_literal decimalFloat_conv
                     (genericValue.mk TInt 1 false) (oneVar (VInt 5)) _) _ _).
    + exists (VInt 5). split; vm_compute; reflexivity.
    + discriminate.
    + discriminate.
Defined.

(** X10 at the literal ["90"]. *)
Lemma duration_Set_needs_a_unit_witness :
  exists err,
    @genericValue.Set_ decimalFloat_conv (genericValue.mk TDuration 1 false) "90"
      (oneVar (VDuration 5)) = Ret (Some err) (oneVar (VDuration 5)).
Proof.
  apply (proj2 (@duration_Set_needs_a_unit decimalFloat_conv
                  (genericValue.mk TDuration 1 false) (oneVar (VDuration 5)) 5 "90"
                  eq_refl eq_refl)).
  - reflexivity.
  - discriminate.
  - discriminate.
Defined.

(** X11 at [Int64(&n, "n", 3, "")] with [n] holding 0. *)
Lemma declaring_a_flag_witness :
  exists fb b,
    Int64 1 "n" 3 "" (oneVar (VInt64 0))
    = Ret fb (<[1%positive := CVar (VInt64 3)]> (oneVar (VInt64 0)))
    /\ Flag.Value (flag fb) = ValGeneric b
    /\ genericValue.Get b (<[1%positive := CVar (VInt64 3)]> (oneVar (VInt64 0)))
       = Some (VInt64 3).
Proof.
  destruct (proj2 (declaring_a_flag_stores_its_default (VInt64 3) false 1 "n" ""
                     (Int64 1 "n" 3 "") (oneVar (VInt64 0))
                     (or_intror (or_intror (or_intror (or_intror (or_introl
                        (ex_intro _ 3 (conj eq_refl (conj eq_refl eq_refl)))))))))
              (ex_intro _ (CVar (VInt64 0)) eq_refl))
    as (fb & b & H1 & H2 & _ & _ & H5 & _).
  exists fb, b. split; [exact H1|]. split; [exact H2|exact H5].
Defined.

(** X12 at [Bool(&v, "foo", false, "")] and [Int64(&n, "n", 3, "")]. *)
Lemma only_Bool_flags_witness :
  (exists fb h',
     Bool 1 "foo" false "" (oneVar (VBool true)) = Ret fb h'
     /\ isBoolValue (Flag.Value (flag fb)) = true)
  /\ (exists fb h',
        Int64 1 "n" 3 "" (oneVar (VInt64 0)) = Ret fb h'
        /\ isBoolValue (Flag.Value (flag fb)) = false).
Proof.
  split.
  - eexists _, _. split; [vm_compute; reflexivity|].
    eapply (proj1 (only_Bool_flags_are_boolean_capable 1 "foo" "" (oneVar (VBool true)) _ _)
             (VBool false) true (Bool 1 "foo" false "")).
    + left. exists false. repeat split.
    + vm_compute. reflexivity.
  - eexists _, _. split; [vm_compute; reflexivity|].
    eapply (proj1 (only_Bool_flags_are_boolean_capable 1 "n" "" (oneVar (VInt64 0)) _ _)
             (VInt64 3) false (Int64 1 "n" 3 "")).
    + do 4 right. left. exists 3. repeat split.
    + vm_compute. reflexivity.
Defined.

(** X13 at the names ["foo"] and [""]. *)
Lemma Var_keeps_the_name_witness :
  (Flag.Name (flag (Var (ValFunc (fun _ h => Ret None h)) "foo" "")) = "foo"
   /\ Flag.ShortName (flag (Var (ValFunc (fun _ h => Ret None h)) "foo" "")) = "")
  /\ (Flag.Name (flag (Var (ValFunc (fun _ h => Ret None h)) "" "")) = ""
      /\ Flag.ShortName (flag (Var (ValFunc (fun _ h => Ret None h)) "" "")) = "").
Proof.
  split.
  - apply (proj1 (proj2 (proj2 (Var_keeps_the_name_in_one_field
                                  (ValFunc (fun _ h => Ret None h)) "foo" "")))).
    discriminate.
  - apply (proj1 (proj2 (proj2 (Var_keeps_the_name_in_one_field
                                  (ValFunc (fun _ h => Ret None h)) "" "")))).
    discriminate.
Defined.

(** X14 at a fresh box over a destination holding the default ["d"]: the
    first literal replaces the default. *)
Lemma slice_Set_postcondition_witness :
  exists h',
    genericSliceValue.Set_ (genericSliceValue.mk TString 1 2) "a"
      (<[2%positive := CVar (VBool false)]> {[ 1%positive := CSlice TString [VString "d"] ]})
    = Ret None h'
    /\ genericSliceValue.hot (genericSliceValue.mk TString 1 2) h' = Some true
    /\ genericSliceValue.Get (genericSliceValue.mk TString 1 2) h' = Some [VString "a"].
Proof.
  eexists. split; [vm_compute; reflexivity|].
  match goal with
  | |- genericSliceValue.hot _ ?h' = _ /\ _ =>
    destruct (slice_Set_postcondition (genericSliceValue.mk TString 1 2) "a"
                (<[2%positive := CVar (VBool false)]>
                   {[ 1%positive := CSlice TString [VString "d"] ]}) h' None)
      as (_ & _ & _ & Hhot & _ & xs & Hget & _ & Hcold)
  end.
  - vm_compute. reflexivity.
  - split; [exact Hhot|].
    rewrite (Hcold ltac:(vm_compute; reflexivity)) in Hget. exact Hget.
Defined.

(** X15 at the destinations [["a"; "b"]] and [["a b"]]. *)
Lemma slice_String_renders_witness :
  @genericSliceValue.String_ decimalFloat_conv (genericSliceValue.mk TString 1 2)
    {[ 1%positive := CSlice TString [VString "a"; VString "b"] ]}
  = Ret "[a b]" {[ 1%positive := CSlice TString [VString "a"; VString "b"] ]}
  /\ exists text,
       @genericSliceValue.String_ decimalFloat_conv (genericSliceValue.mk TString 1 2)
         {[ 1%positive := CSlice TString [VString "a"; VString "b"] ]}
       = Ret text {[ 1%positive := CSlice TString [VString "a"; VString "b"] ]}
       /\ @genericSliceValue.String_ decimalFloat_conv (genericSliceValue.mk TString 1 2)
            {[ 1%positive := CSlice TString [VString "a b"] ]}
          = Ret text {[ 1%positive := CSlice TString [VString "a b"] ]}.
Proof.
  split.
  - exact (proj1 (@slice_String_renders_with_spaces decimalFloat_conv
                    (genericSliceValue.mk TString 1 2)
                    {[ 1%positive := CSlice TString [VString "a"; VString "b"] ]}
                    ∅ TString TString ["a"; "b"] "" "" []) eq_refl).
  - exact (proj2 (proj2 (@slice_String_renders_with_spaces decimalFloat_conv
                           (genericSliceValue.mk TString 1 2)
                           {[ 1%positive := CSlice TString [VString "a"; VString "b"] ]}
                           {[ 1%positive := CSlice TString [VString "a b"] ]}
                           TString TString [] "a" "b" [])) eq_refl eq_refl).
Defined.
